(** * Verification of the word-cloud weighting pipeline (wordcloud_core.py)

    A shallow embedding of the pure part of [wordcloud_core.py]: the
    lexicon, the tokenizer, the scripture-reference detector, the weight
    engine, the filter of the size normalizer and the JSON extraction
    adapter, followed by the properties of the specification that concern
    them.

    Conventions of the embedding.
    - A Python [str] is a [string]; the texts considered are ASCII, and the
      character classes below are the restrictions to ASCII of the ones
      Python uses ([str.isspace], [str.isalpha], [\d], [\w], [\s]).
    - A compiled pattern of [re] is a value of [Re.regex], written after the
      pattern of the source; [Re.run] is a backtracking matcher with the
      priorities of [re], on which [search], [fullmatch], [finditer] and
      [sub] are built.
    - A Python [int] is a [Z].  A Python [float] is an IEEE-754 binary64
      number, [spec_float] with precision 53 and maximal exponent 1024.
    - A [dict] whose iteration order is irrelevant is a [gmap], a [set] is a
      [gset]; a dict that is iterated in order is an association list.
    - A call that may raise returns an [option] or a [result]. *)

From Stdlib Require Import ZArith NArith Ascii String List Bool Lia.
From Stdlib Require Import SpecFloat.
From stdpp Require Import base option list gmap strings sets.

Local Open Scope Z_scope.

(** ** Characters *)

Module Char.

Definition code (c : ascii) : N := N_of_ascii c.

Definition between (lo hi : N) (c : ascii) : bool :=
  ((lo <=? code c) && (code c <=? hi))%N.

Definition is_upper (c : ascii) : bool := between 65 90 c.
Definition is_lower (c : ascii) : bool := between 97 122 c.
Definition is_alpha (c : ascii) : bool := is_upper c || is_lower c.
Definition is_digit (c : ascii) : bool := between 48 57 c.

(** [\w]: letters, digits and the underscore. *)
Definition is_word (c : ascii) : bool :=
  is_alpha c || is_digit c || (code c =? 95)%N.

(** [\s], [str.isspace]: tab, line feed, vertical tab, form feed, carriage
    return, the four separators 0x1c-0x1f, and the space. *)
Definition is_space (c : ascii) : bool :=
  between 9 13 c || between 28 31 c || (code c =? 32)%N.

Definition lower (c : ascii) : ascii :=
  if is_upper c then ascii_of_N (code c + 32) else c.

Definition upper (c : ascii) : ascii :=
  if is_lower c then ascii_of_N (code c - 32) else c.

Definition eqb (a b : ascii) : bool := (code a =? code b)%N.

End Char.

(** ** Python string methods *)

Module Str.

Fixpoint all (p : ascii -> bool) (s : string) : bool :=
  match s with
  | EmptyString => true
  | String c t => p c && all p t
  end.

Fixpoint map (f : ascii -> ascii) (s : string) : string :=
  match s with
  | EmptyString => EmptyString
  | String c t => String (f c) (map f t)
  end.

Fixpoint rev_onto (s acc : string) : string :=
  match s with
  | EmptyString => acc
  | String c t => rev_onto t (String c acc)
  end.

Definition rev (s : string) : string := rev_onto s EmptyString.

Definition is_empty (s : string) : bool :=
  match s with EmptyString => true | _ => false end.

(** [s.lower()] *)
Definition lower (s : string) : string := map Char.lower s.

(** [s.isalpha()]: at least one character, all of them letters. *)
Definition isalpha (s : string) : bool := negb (is_empty s) && all Char.is_alpha s.

(** [s.capitalize()] *)
Definition capitalize (s : string) : string :=
  match s with
  | EmptyString => EmptyString
  | String c t => String (Char.upper c) (lower t)
  end.

(** [s.lstrip(chars)], [s.rstrip(chars)] and [s.strip(chars)], the set of
    characters given as a predicate. *)
Fixpoint lstrip_by (p : ascii -> bool) (s : string) : string :=
  match s with
  | EmptyString => EmptyString
  | String c t => if p c then lstrip_by p t else s
  end.

Definition rstrip_by (p : ascii -> bool) (s : string) : string :=
  rev (lstrip_by p (rev s)).

Definition strip_by (p : ascii -> bool) (s : string) : string :=
  rstrip_by p (lstrip_by p s).

(** [s.strip()] *)
Definition strip (s : string) : string := strip_by Char.is_space s.

(** [s.split()]: the maximal runs of non-space characters.  [cur] is the
    run being read, reversed. *)
Fixpoint split_go (s : string) (cur : string) : list string :=
  match s with
  | EmptyString => if is_empty cur then [] else [rev cur]
  | String c t =>
      if Char.is_space c
      then (if is_empty cur then split_go t EmptyString
            else rev cur :: split_go t EmptyString)
      else split_go t (String c cur)
  end.

Definition split (s : string) : list string := split_go s EmptyString.

(** [sep.join(parts)] *)
Fixpoint join (sep : string) (parts : list string) : string :=
  match parts with
  | [] => EmptyString
  | [p] => p
  | p :: rest => p +:+ sep +:+ join sep rest
  end.

End Str.

(** ** Regular expressions

    The patterns of the module are values of [regex]; [run] is a
    backtracking matcher that returns the positions at which a match of
    the pattern can end, in the order in which Python's [re] tries them
    (alternatives from left to right, greedy repetitions longest first).
    The first position of the list is the match [re] reports. *)

Module Re.

Inductive regex : Type :=
| Eps : regex
| Chr : (ascii -> bool) -> regex
| Cat : regex -> regex -> regex
| Alt : regex -> regex -> regex
| Star : regex -> regex
| WordB : regex.

Definition Plus (r : regex) : regex := Cat r (Star r).
Definition Opt (r : regex) : regex := Alt r Eps.

(** A literal string, and the same under [re.IGNORECASE]. *)
Fixpoint Lit (s : string) : regex :=
  match s with
  | EmptyString => Eps
  | String c t => Cat (Chr (Char.eqb c)) (Lit t)
  end.

Fixpoint LitI (s : string) : regex :=
  match s with
  | EmptyString => Eps
  | String c t => Cat (Chr (fun x => Char.eqb (Char.lower x) (Char.lower c))) (LitI t)
  end.

(** [r1|r2|...|rn] *)
Fixpoint Alts (rs : list regex) : regex :=
  match rs with
  | [] => Eps
  | [r] => r
  | r :: rest => Alt r (Alts rest)
  end.

(** A position in the subject: the character before it, if any, and the
    text after it. *)
Record cursor : Type := Cursor { before : option ascii; after : string }.

Definition start (s : string) : cursor := Cursor None s.

Definition remaining (c : cursor) : nat := String.length (after c).

Definition word_before (c : cursor) : bool :=
  match before c with Some x => Char.is_word x | None => false end.

Definition word_after (c : cursor) : bool :=
  match after c with String x _ => Char.is_word x | EmptyString => false end.

(** [\b] holds where exactly one side is a word character. *)
Definition at_boundary (c : cursor) : bool := xorb (word_before c) (word_after c).

(** Greedy repetition of [step]: one more iteration first, then stop.  An
    iteration that consumes nothing is not repeated. *)
Fixpoint star_loop (step : cursor -> list cursor) (fuel : nat) (c : cursor)
  : list cursor :=
  match fuel with
  | O => [c]
  | S n =>
      flat_map (fun c' => if (remaining c' <? remaining c)%nat
                          then star_loop step n c' else [])
               (step c) ++ [c]
  end.

Fixpoint run (r : regex) (c : cursor) : list cursor :=
  match r with
  | Eps => [c]
  | Chr p =>
      match after c with
      | String x t => if p x then [Cursor (Some x) t] else []
      | EmptyString => []
      end
  | Cat r1 r2 => flat_map (run r2) (run r1 c)
  | Alt r1 r2 => run r1 c ++ run r2 c
  | Star r1 => star_loop (run r1) (remaining c) c
  | WordB => if at_boundary c then [c] else []
  end.

(** The match of [r] that starts at [c], if there is one. *)
Definition match_at (r : regex) (c : cursor) : option cursor := head (run r c).

(** One step to the right. *)
Definition advance (c : cursor) : option cursor :=
  match after c with
  | String x t => Some (Cursor (Some x) t)
  | EmptyString => None
  end.

(** The text between two positions of the same subject. *)
Definition between (c c' : cursor) : string :=
  String.substring 0 (remaining c - remaining c') (after c).

(** [r.search]: the leftmost position at or after [c] where [r] matches,
    with the end of the match. *)
Fixpoint search_from (r : regex) (fuel : nat) (c : cursor)
  : option (cursor * cursor) :=
  match match_at r c with
  | Some c' => Some (c, c')
  | None =>
      match fuel with
      | O => None
      | S n =>
          match advance c with
          | Some c1 => search_from r n c1
          | None => None
          end
      end
  end.

(** [bool(r.search(s))] *)
Definition search (r : regex) (s : string) : bool :=
  match search_from r (String.length s) (start s) with
  | Some _ => true
  | None => false
  end.

(** [bool(r.fullmatch(s))]: some way of matching [r] at the start ends at
    the end of [s]. *)
Definition fullmatch (r : regex) (s : string) : bool :=
  existsb (fun c' => Str.is_empty (after c')) (run r (start s)).

(** [r.finditer(s)]: the successive leftmost matches, none overlapping the
    one before; after an empty match the scan moves one character on. *)
Fixpoint finditer_from (r : regex) (fuel : nat) (c : cursor) : list string :=
  match fuel with
  | O => []
  | S n =>
      match search_from r (remaining c) c with
      | None => []
      | Some (c0, c1) =>
          between c0 c1 ::
          (if (remaining c1 <? remaining c0)%nat then finditer_from r n c1
           else match advance c1 with
                | Some c2 => finditer_from r n c2
                | None => []
                end)
      end
  end.

Definition finditer (r : regex) (s : string) : list string :=
  finditer_from r (S (String.length s)) (start s).

(** [r.sub(repl, s)], the replacement computed from the matched text. *)
Fixpoint sub_from (r : regex) (repl : string -> string) (fuel : nat)
  (c : cursor) : string :=
  match fuel with
  | O => after c
  | S n =>
      match search_from r (remaining c) c with
      | None => after c
      | Some (c0, c1) =>
          between c c0 +:+ repl (between c0 c1) +:+
          (if (remaining c1 <? remaining c0)%nat then sub_from r repl n c1
           else match after c1 with
                | String x t => String x (sub_from r repl n (Cursor (Some x) t))
                | EmptyString => EmptyString
                end)
      end
  end.

Definition sub (r : regex) (repl : string -> string) (s : string) : string :=
  sub_from r repl (S (String.length s)) (start s).

End Re.

(** ** Floating-point numbers *)

Module Float.

Definition prec : Z := 53.
Definition emax : Z := 1024.

Definition t : Type := spec_float.

Definition mul : t -> t -> t := SFmul prec emax.
Definition add : t -> t -> t := SFadd prec emax.
Definition div : t -> t -> t := SFdiv prec emax.
Definition eqb : t -> t -> bool := SFeqb.

(** The nearest binary64 number to an integer (ties to even); an infinity
    when the integer is out of range. *)
Definition of_Z (z : Z) : t := binary_normalize prec emax z 0 false.

(** The decimal literal [m * 10^-k], for instance [dec 22 1] for [2.2]:
    both operands are exact and the division rounds to nearest. *)
Definition dec (m : Z) (k : Z) : t := div (of_Z m) (of_Z (10 ^ k)).

Definition zero : t := S754_zero false.
Definition one : t := of_Z 1.

(** [float(i)] for an [int] operand of a mixed operation: OverflowError
    when the integer is too large. *)
Definition of_int (z : Z) : option t :=
  match of_Z z with
  | S754_infinity _ => None
  | f => Some f
  end.

(** [bool(x)]: false exactly for the two zeros. *)
Definition truthy (x : t) : bool :=
  match x with S754_zero _ => false | _ => true end.

(** Rounding of the quotient [m / d] ([d] positive) to the nearest integer,
    ties to the even one. *)
Definition round_half_even (m d : Z) : Z :=
  let q := m / d in
  let r := m mod d in
  match 2 * r ?= d with
  | Lt => q
  | Gt => q + 1
  | Eq => if Z.even q then q else q + 1
  end.

(** [round(x)] with one argument: ValueError on a NaN, OverflowError on an
    infinity, and otherwise the integer nearest to [x], ties to even. *)
Definition round (x : t) : option Z :=
  match x with
  | S754_nan => None
  | S754_infinity _ => None
  | S754_zero _ => Some 0
  | S754_finite s m e =>
      let n := if (0 <=? e) then Z.pos m * 2 ^ e
               else round_half_even (Z.pos m) (2 ^ (- e)) in
      Some (if s then - n else n)
  end.

End Float.

(** ** Lexicon *)

Definition BOOK_NAMES : list string := [
  "Genesis";"Exodus";"Leviticus";"Numbers";"Deuteronomy";"Joshua";"Judges";"Ruth";
  "1 Samuel";"2 Samuel";"1 Kings";"2 Kings";"1 Chronicles";"2 Chronicles";"Ezra";"Nehemiah";
  "Esther";"Job";"Psalm";"Psalms";"Proverbs";"Ecclesiastes";"Song of Songs";"Isaiah";"Jeremiah";
  "Lamentations";"Ezekiel";"Daniel";"Hosea";"Joel";"Amos";"Obadiah";"Jonah";"Micah";"Nahum";
  "Habakkuk";"Zephaniah";"Haggai";"Zechariah";"Malachi";"Matthew";"Mark";"Luke";"John";"Acts";
  "Romans";"1 Corinthians";"2 Corinthians";"Galatians";"Ephesians";"Philippians";"Colossians";
  "1 Thessalonians";"2 Thessalonians";"1 Timothy";"2 Timothy";"Titus";"Philemon";"Hebrews";"James";
  "1 Peter";"2 Peter";"1 John";"2 John";"3 John";"Jude";"Revelation"
].

(** [re.escape] makes every name a literal; the names are tried in the
    order of the list. *)
Definition BOOK_PATTERN : Re.regex := Re.Alts (Re.LitI <$> BOOK_NAMES).

Definition DIGITS : Re.regex := Re.Plus (Re.Chr Char.is_digit).

(** [\b BOOK \s+ \d+ (?: : \d+ (?: - \d+)? )? \b], case-insensitive. *)
Definition REF_REGEX : Re.regex :=
  Re.Cat Re.WordB
 (Re.Cat BOOK_PATTERN
 (Re.Cat (Re.Plus (Re.Chr Char.is_space))
 (Re.Cat DIGITS
 (Re.Cat (Re.Opt (Re.Cat (Re.Lit ":")
                 (Re.Cat DIGITS (Re.Opt (Re.Cat (Re.Lit "-") DIGITS)))))
         Re.WordB)))).

Definition words_of (s : string) : gset string := list_to_set (Str.split s).

Definition BASE_STOP : gset string := words_of
"a about above after again against all am an and any are as at be because been before being below
between both but by can did do does doing down during each few for from further had has have having he her here hers
herself him himself his how i if in into is it its itself just let me more most my myself no nor not of off on once only
or other our ours ourselves out over own same she should so some such than that the their theirs them themselves then
there these they this those through to too under until up very was we were what when where which while who whom why will
with you your yours yourself yourselves".

Definition CONTRACTIONS : gset string := list_to_set [
  "dont";"doesnt";"didnt";"isnt";"arent";"wasnt";"werent";
  "cant";"couldnt";"shouldnt";"wouldnt";"wont";
  "im";"ive";"youre";"weve";"theyre";"its";"thats";
  "ill";"youll";"theyll";"were";
  "ve";"re";"ll";"d";"m";"s"
].

Definition FILLERS : gset string := list_to_set [
  "really";"quite";"bit";"lot";"maybe";"perhaps";"sort";"kind";"thing";"things";"like";"well";"just";"still";"also";
  "yes";"ok";"okay";"hmm";"wow";"oh";"please";"much";"many";"little";"first";"last";"next";"good";"great";"right"
].

Definition PLATFORM : gset string := list_to_set [
  "holy";"shift";"journal";"post";"posts";"blog";"entry";"entries";"subscribe";"subscriber";"member";"members";
  "newsletter";"comment";"comments";"signin";"signup";"signed";"feature";"featured";"image";"figure";"caption";
  "thumb";"bookmark";"paywall";"com";"org";"uk";"http";"https";"www";"amp";"nbsp";"email";"online"
].

Definition ADMINISH : gset string := list_to_set [
  "meeting";"panel";"portfolio";"form";"forms";"draft";"version";"page";"pages";"section";"order";"list";"listening";
  "sent";"received";"phone";"zoom";"room";"team";"advisor";"advisory";"process";"course";"week";"weeks";"month";"months";
  "year";"years";"today";"tomorrow";"yesterday";"morning";"evening";"night";"hour";"hours";"time";"times";"context"
].

Definition PERSONAL : gset string := list_to_set
  ["margie";"thomas";"andrew";"frank";"janice";"shiftmatt";"matt"].

Definition SHORT_FILLERS : gset string := list_to_set [
  "us";"one";"two";"say";"says";"said";"may";"might";"must";"yet";"got";"get";"go";"goes";"went";"let";"use";
  "look";"new";"old";"away";"back";"keep";"rather";"already";"probably";"though";"instead";"ever";"always"
].

Definition KEEP_SHORT : gset string := list_to_set [
  "god";"jesus";"hope";"joy";"love";"amen";"grace";"sin";"law";"faith";"word";"rest";
  "paul";"mark";"john";"luke";"acts";"job";"ruth";"jude";"abba";"yahweh"
].

Definition BOOST_MAP : gmap string Float.t := list_to_map [
  ("word and sacrament", Float.dec 40 1); ("pastoral care", Float.dec 30 1);
  ("kingdom of god", Float.dec 30 1); ("kingdom of heaven", Float.dec 30 1);
  ("covenant", Float.dec 25 1); ("grace", Float.dec 20 1); ("mercy", Float.dec 20 1);
  ("repentance", Float.dec 25 1); ("redemption", Float.dec 25 1); ("salvation", Float.dec 25 1);
  ("holiness", Float.dec 25 1); ("righteousness", Float.dec 25 1); ("discipleship", Float.dec 22 1);
  ("mission", Float.dec 20 1); ("ministry", Float.dec 18 1); ("vocation", Float.dec 20 1);
  ("calling", Float.dec 20 1); ("shepherd", Float.dec 20 1); ("pastor", Float.dec 20 1);
  ("flock", Float.dec 20 1); ("sacrament", Float.dec 25 1); ("sacraments", Float.dec 25 1);
  ("eucharist", Float.dec 25 1); ("communion", Float.dec 25 1); ("baptism", Float.dec 25 1);
  ("worship", Float.dec 18 1); ("prayer", Float.dec 18 1); ("psalm", Float.dec 16 1);
  ("scripture", Float.dec 18 1); ("bible", Float.dec 18 1); ("incarnation", Float.dec 25 1);
  ("resurrection", Float.dec 25 1); ("pentecost", Float.dec 20 1); ("advent", Float.dec 20 1);
  ("lent", Float.dec 20 1); ("epiphany", Float.dec 20 1); ("lord", Float.dec 16 1);
  ("saviour", Float.dec 20 1); ("savior", Float.dec 20 1); ("redeemer", Float.dec 22 1);
  ("alpha", Float.dec 16 1); ("omega", Float.dec 16 1); ("service", Float.dec 12 1);
  ("pastoral", Float.dec 20 1); ("sabbath", Float.dec 20 1); ("beatitudes", Float.dec 20 1);
  ("parable", Float.dec 19 1); ("parables", Float.dec 19 1); ("sanctification", Float.dec 25 1)
].

Definition DEFAULT_JSON_KEYS : list string :=
  ["plaintext"; "text"; "body"; "content"; "excerpt"; "summary"; "description"].

Definition STOP_GROUPS : list (string * gset string) := [
  ("base", BASE_STOP);
  ("contractions", CONTRACTIONS);
  ("fillers", FILLERS);
  ("platform", PLATFORM);
  ("admin", ADMINISH);
  ("personal", PERSONAL);
  ("short", SHORT_FILLERS)
].

(** [STOP_GROUPS.get(name, set())] *)
Definition stop_group (name : string) : gset string :=
  default ∅ (snd <$> find (fun g => String.eqb (fst g) name) STOP_GROUPS).

Definition DEFAULT_STOP_GROUPS : list string := fst <$> STOP_GROUPS.

Definition DEFAULT_WEIGHT_BREAKS : list (Float.t * string) :=
  [(Float.dec 4 2, "900"); (Float.dec 12 2, "800");
   (Float.dec 30 2, "700"); (Float.dec 60 2, "600")].

(** ** Configuration *)

Record WordCloudConfig : Type := {
  enabled_stop_groups : gset string;
  extra_stopwords : gset string;
  remove_stopwords : gset string;
  keep_short_extra : gset string;
  max_items : Z;
  max_font_size : Z;
  min_font_size : Z;
  size_curve_power : Float.t;
  min_token_length : Z;
  reference_weight : Z;
  boost_map : gmap string Float.t;
  weight_breaks : list (Float.t * string);
  detect_references : bool;
  json_text_keys : option (gset string);
  collect_all_json_strings : bool;
  manual_weight_adjustments : gmap string Float.t
}.

Definition default_config : WordCloudConfig := {|
  enabled_stop_groups := list_to_set DEFAULT_STOP_GROUPS;
  extra_stopwords := ∅;
  remove_stopwords := ∅;
  keep_short_extra := ∅;
  max_items := 420;
  max_font_size := 180;
  min_font_size := 9;
  size_curve_power := Float.dec 75 2;
  min_token_length := 3;
  reference_weight := 4;
  boost_map := BOOST_MAP;
  weight_breaks := DEFAULT_WEIGHT_BREAKS;
  detect_references := true;
  json_text_keys := None;
  collect_all_json_strings := false;
  manual_weight_adjustments := ∅
|}.

(** [{word.strip().lower() for word in ws if word.strip()}] *)
Definition stripped_lowered (ws : gset string) : gset string :=
  set_map (fun w => Str.lower (Str.strip w))
          (filter (fun w => Str.strip w ≠ EmptyString) ws).

Definition stopwords (cfg : WordCloudConfig) : gset string :=
  let groups :=
    foldl (fun acc name => acc ∪ stop_group name) ∅
          (elements (enabled_stop_groups cfg)) in
  let added := groups ∪ stripped_lowered (extra_stopwords cfg) in
  added ∖ stripped_lowered (remove_stopwords cfg).

Definition keep_short (cfg : WordCloudConfig) : gset string :=
  KEEP_SHORT ∪ stripped_lowered (keep_short_extra cfg).

Definition resolved_json_keys (cfg : WordCloudConfig) : gset string :=
  if collect_all_json_strings cfg then ∅
  else match json_text_keys cfg with
       | Some ks =>
           if decide (ks = ∅) then list_to_set (Str.lower <$> DEFAULT_JSON_KEYS)
           else stripped_lowered ks
       | None => list_to_set (Str.lower <$> DEFAULT_JSON_KEYS)
       end.

(** ** Reference detector *)

Definition norm_ref (m : string) : string :=
  let parts := Str.split m in
  match parts with
  | [] => m
  | _ =>
      let book := Str.join " "
        ((fun p => if Str.isalpha p then Str.capitalize p else p)
           <$> removelast parts) in
      let last := if (1 <? length parts)%nat then List.last parts EmptyString
                  else EmptyString in
      Str.strip (book +:+ " " +:+ last)
  end.

Definition is_scripture_ref (value : string) : bool := Re.search REF_REGEX value.

(** ** Tokenizer *)

Definition one_of (chars : string) (c : ascii) : bool :=
  negb (Str.all (fun x => negb (Char.eqb x c)) chars).

(** The replacement template [\1 \2] of a two-character match. *)
Definition spaced_pair (m : string) : string :=
  match m with
  | String a (String b EmptyString) => String a (String " " (String b EmptyString))
  | _ => m
  end.

Definition LOWER_UPPER : Re.regex := Re.Cat (Re.Chr Char.is_lower) (Re.Chr Char.is_upper).
Definition LOWER_DIGIT : Re.regex := Re.Cat (Re.Chr Char.is_lower) (Re.Chr Char.is_digit).
Definition DIGIT_LOWER : Re.regex := Re.Cat (Re.Chr Char.is_digit) (Re.Chr Char.is_lower).

Definition split_weird_token (token : string) : list string :=
  let adjusted := Re.sub LOWER_UPPER spaced_pair token in
  let adjusted := Re.sub LOWER_DIGIT spaced_pair adjusted in
  let adjusted := Re.sub DIGIT_LOWER spaced_pair adjusted in
  filter (fun piece => piece ≠ EmptyString) (Str.split adjusted).

Definition NOT_SPACE : Re.regex := Re.Chr (fun c => negb (Char.is_space c)).

(** [https?://\S+|www\.\S+] *)
Definition URL : Re.regex :=
  Re.Alt
    (Re.Cat (Re.Lit "http") (Re.Cat (Re.Opt (Re.Lit "s"))
       (Re.Cat (Re.Lit "://") (Re.Plus NOT_SPACE))))
    (Re.Cat (Re.Lit "www.") (Re.Plus NOT_SPACE)).

(** [[_*`~^<>|\\]] *)
Definition MARKUP : Re.regex := Re.Chr (one_of "_*`~^<>|\").

(** [\[[^\]]*\]\([^)]+\)] *)
Definition MD_LINK : Re.regex :=
  Re.Cat (Re.Lit "[")
 (Re.Cat (Re.Star (Re.Chr (fun c => negb (one_of "]" c))))
 (Re.Cat (Re.Lit "](")
 (Re.Cat (Re.Plus (Re.Chr (fun c => negb (one_of ")" c))))
         (Re.Lit ")")))).

(** [[^a-z0-9\s\'-]] *)
Definition NOT_TOKEN_CHAR : Re.regex :=
  Re.Chr (fun c => negb (Char.is_lower c || Char.is_digit c
                         || Char.is_space c || one_of "'-" c)).

Definition SPACES : Re.regex := Re.Plus (Re.Chr Char.is_space).

(** [[a-z]+'?[a-z]*] *)
Definition WORD : Re.regex :=
  Re.Cat (Re.Plus (Re.Chr Char.is_lower))
 (Re.Cat (Re.Opt (Re.Lit "'")) (Re.Star (Re.Chr Char.is_lower))).

Definition blank (_ : string) : string := " ".

(** The body of the cleaning loop: [None] for a token that is skipped. *)
Definition clean_token (stopwords keep_short : gset string) (min_length : Z)
  (token : string) : option string :=
  let token := Str.strip_by (one_of "-'") token in
  if Str.is_empty token then None
  else if bool_decide (token ∈ stopwords) then None
  else if negb (Re.fullmatch WORD token) then None
  else if (Z.of_nat (String.length token) <? min_length)
          && negb (bool_decide (token ∈ keep_short)) then None
  else Some token.

Definition tokenize_text (body : string) (stopwords keep_short : gset string)
  (min_length : Z) : list string :=
  let text := Str.lower body in
  let text := Re.sub URL blank text in
  let text := Re.sub MARKUP blank text in
  let text := Re.sub MD_LINK blank text in
  let text := Re.sub NOT_TOKEN_CHAR blank text in
  let text := Str.strip (Re.sub SPACES blank text) in
  let raw_tokens := flat_map split_weird_token (Str.split text) in
  omap (clean_token stopwords keep_short min_length) raw_tokens.

Definition extract_tokens_and_references (text : string) (cfg : WordCloudConfig)
  : list string * list string :=
  let references :=
    if detect_references cfg then norm_ref <$> Re.finditer REF_REGEX text
    else [] in
  let tokens := tokenize_text text (stopwords cfg) (keep_short cfg)
                              (min_token_length cfg) in
  (tokens, references).

(** ** Weight engine *)

Record WordCountStat : Type := {
  key : string;
  base_count : Z;
  reference_bonus : Z;
  bigram_count : Z;
  boost_multiplier : Float.t;
  manual_adjustment : Float.t;
  final_count : Z
}.

(** [d.get(k, 0)] *)
Definition get0 (d : gmap string Z) (k : string) : Z := default 0 (d !! k).

(** [c[k] += n] on a Counter (a missing entry counts as zero), and also
    [c[k] = c.get(k, 0) + n]. *)
Definition bump (n : Z) (c : gmap string Z) (k : string) : gmap string Z :=
  <[k := get0 c k + n]> c.

(** [collections.Counter(xs)] *)
Definition Counter (xs : list string) : gmap string Z := foldl (bump 1) ∅ xs.

(** [f"{left} {right}" for left, right in zip(tokens, tokens[1:])] *)
Definition bigram_phrases (tokens : list string) : list string :=
  zip_with (fun left right => left +:+ " " +:+ right) tokens (tail tokens).

(** The loop over the bigrams; the state is [(bigrams, counts)]. *)
Definition count_bigram (boost_map : gmap string Float.t)
  (st : gmap string Z * gmap string Z) (phrase : string)
  : gmap string Z * gmap string Z :=
  if bool_decide (phrase ∈ dom boost_map)
  then (bump 1 (fst st) phrase, bump 1 (snd st) phrase)
  else st.

(** The three dictionaries built before the loop over the keys:
    [(counts, reference_bonus, bigrams)]. *)
Definition accumulate (tokens references : list string)
  (boost_map : gmap string Float.t) (reference_weight : Z)
  : gmap string Z * gmap string Z * gmap string Z :=
  let base_counts := Counter tokens in
  let counts := foldl (bump reference_weight) base_counts references in
  let reference_bonus := foldl (bump reference_weight) ∅ references in
  let '(bigrams, counts) :=
    foldl (count_bigram boost_map) (∅, counts) (bigram_phrases tokens) in
  (counts, reference_bonus, bigrams).

(** [counts] as it stands when the loop over the keys starts. *)
Definition running_counts (tokens references : list string)
  (boost_map : gmap string Float.t) (reference_weight : Z) : gmap string Z :=
  fst (fst (accumulate tokens references boost_map reference_weight)).

(** [int(round(current * boost_multiplier))] when the multiplier is not 1.0 *)
Definition apply_boost (current : Z) (boost_multiplier : Float.t) : option Z :=
  if negb (Float.eqb boost_multiplier Float.one)
  then f ← Float.of_int current; Float.round (Float.mul f boost_multiplier)
  else Some current.

(** [max(0, int(round(current + manual_adjustment)))] when the adjustment
    is not zero *)
Definition apply_manual (current : Z) (manual_adjustment : Float.t) : option Z :=
  if Float.truthy manual_adjustment
  then f ← Float.of_int current;
       z ← Float.round (Float.add f manual_adjustment);
       Some (Z.max 0 z)
  else Some current.

(** [manual_adjustments.get(key, manual_adjustments.get(lowered, 0.0))] *)
Definition manual_lookup (manual_adjustments : gmap string Float.t)
  (key lowered : string) : Float.t :=
  default (default Float.zero (manual_adjustments !! lowered))
          (manual_adjustments !! key).

(** The body of the loop over the keys, for the key [key] and the current
    [final_counts]: the stat record it builds, or [None] when a conversion
    raises. *)
Definition weigh_key (boost_map manual_adjustments : gmap string Float.t)
  (base_counts reference_bonus bigrams final_counts : gmap string Z)
  (key : string) : option WordCountStat :=
  let base := get0 base_counts key in
  let ref_bonus := get0 reference_bonus key in
  let bigram_count := get0 bigrams key in
  let current := get0 final_counts key in
  let lowered := Str.lower key in
  let boost_multiplier := default Float.one (boost_map !! lowered) in
  current ← apply_boost current boost_multiplier;
  let manual_adjustment := manual_lookup manual_adjustments key lowered in
  current ← apply_manual current manual_adjustment;
  Some {| key := key;
          base_count := base;
          reference_bonus := ref_bonus;
          bigram_count := bigram_count;
          boost_multiplier := boost_multiplier;
          manual_adjustment := manual_adjustment;
          final_count := current |}.

Definition weigh_step (boost_map manual_adjustments : gmap string Float.t)
  (base_counts reference_bonus bigrams : gmap string Z)
  (st : gmap string Z * gmap string WordCountStat) (key : string)
  : option (gmap string Z * gmap string WordCountStat) :=
  stat ← weigh_key boost_map manual_adjustments base_counts reference_bonus
                   bigrams (fst st) key;
  Some (<[key := final_count stat]> (fst st), <[key := stat]> (snd st)).

(** A loop whose body may raise. *)
Fixpoint foldM {A B : Type} (f : B -> A -> option B) (acc : B) (l : list A)
  : option B :=
  match l with
  | [] => Some acc
  | x :: rest =>
      match f acc x with
      | Some acc' => foldM f acc' rest
      | None => None
      end
  end.

Definition compute_word_weights (tokens references : list string)
  (boost_map : gmap string Float.t) (reference_weight : Z)
  (manual_adjustments : option (gmap string Float.t))
  : option (gmap string Z * gmap string WordCountStat) :=
  let base_counts := Counter tokens in
  let '(counts, reference_bonus, bigrams) :=
    accumulate tokens references boost_map reference_weight in
  let manual_adjustments := default ∅ manual_adjustments in
  let final_counts := counts in
  let all_keys : gset string := dom final_counts ∪ dom manual_adjustments in
  foldM (weigh_step boost_map manual_adjustments base_counts reference_bonus bigrams)
        (final_counts, ∅) (elements all_keys).

(** ** Size normalizer, step 1 *)

(** [[A-Za-z]+(?: [A-Za-z]+)*] *)
Definition LETTERS : Re.regex :=
  Re.Cat (Re.Plus (Re.Chr Char.is_alpha))
         (Re.Star (Re.Cat (Re.Lit " ") (Re.Plus (Re.Chr Char.is_alpha)))).

(** The condition of the comprehension that builds [filtered]. *)
Definition renderable (key : string) : bool :=
  is_scripture_ref key || Re.fullmatch LETTERS key.

(** [filtered] of [normalize_items]; [items] is the mapping in its
    iteration order. *)
Definition filtered (items : list (string * Z)) : list (string * Z) :=
  filter (fun kv => renderable (fst kv) = true) items.

(** ** JSON extraction adapter *)

#[local] Set Warnings "-register-all".

Inductive json : Type :=
| JNull : json
| JBool : bool -> json
| JInt : Z -> json
| JFloat : Float.t -> json
| JStr : string -> json
| JList : list json -> json
| JDict : list (string * json) -> json.

Inductive exn : Type := IndexError | KeyError | TypeError | AttributeError.

Inductive result (A : Type) : Type :=
| Ok : A -> result A
| Raise : exn -> result A.
Arguments Ok {A} _.
Arguments Raise {A} _.

Definition bind {A B : Type} (m : result A) (k : A -> result B) : result B :=
  match m with
  | Ok a => k a
  | Raise e => Raise e
  end.

Fixpoint traverse {A B : Type} (f : A -> result B) (l : list A) : result (list B) :=
  match l with
  | [] => Ok []
  | x :: rest =>
      bind (f x) (fun y => bind (traverse f rest) (fun ys => Ok (y :: ys)))
  end.

(** [bool(v)] *)
Definition truthy (v : json) : bool :=
  match v with
  | JNull => false
  | JBool b => b
  | JInt z => negb (z =? 0)
  | JFloat f => Float.truthy f
  | JStr s => negb (Str.is_empty s)
  | JList l => match l with [] => false | _ => true end
  | JDict d => match d with [] => false | _ => true end
  end.

Fixpoint assoc (k : string) (d : list (string * json)) : option json :=
  match d with
  | [] => None
  | (k', v) :: rest => if String.eqb k' k then Some v else assoc k rest
  end.

(** [v.get(k, dflt)]: only a dict has the method. *)
Definition py_get (v : json) (k : string) (dflt : json) : result json :=
  match v with
  | JDict d => Ok (default dflt (assoc k d))
  | _ => Raise AttributeError
  end.

(** [v[0]] *)
Definition py_item0 (v : json) : result json :=
  match v with
  | JList (x :: _) => Ok x
  | JList [] => Raise IndexError
  | JStr (String c _) => Ok (JStr (String c EmptyString))
  | JStr EmptyString => Raise IndexError
  | JDict _ => Raise KeyError
  | _ => Raise TypeError
  end.

Fixpoint chars (s : string) : list json :=
  match s with
  | EmptyString => []
  | String c t => JStr (String c EmptyString) :: chars t
  end.

(** The values a [for] loop over [v] visits. *)
Definition py_iter (v : json) : result (list json) :=
  match v with
  | JList l => Ok l
  | JDict d => Ok (JStr <$> (fst <$> d))
  | JStr s => Ok (chars s)
  | _ => Raise TypeError
  end.

Fixpoint _iter_json_strings (value : json) (keys : gset string)
  (collect_all include : bool) : list string :=
  match value with
  | JStr s =>
      if collect_all || include || bool_decide (keys = ∅) then [s] else []
  | JDict d =>
      flat_map (fun kv =>
                  let key_lower := Str.lower (fst kv) in
                  let child_include :=
                    collect_all || bool_decide (key_lower ∈ keys) || include in
                  _iter_json_strings (snd kv) keys collect_all child_include)
               d
  | JList l =>
      flat_map (fun child => _iter_json_strings child keys collect_all include) l
  | _ => []
  end.

Definition extract_posts (payload : json) : result json :=
  bind (py_get payload "db" (JList [JDict []])) (fun db =>
  bind (py_item0 db) (fun first =>
  bind (py_get first "data" (JDict [])) (fun data =>
  py_get data "posts" (JList [])))).

Definition is_mapping (v : json) : bool :=
  match v with JDict _ => true | _ => false end.

(** The strings found by the walk over the payload. *)
Definition primary_strings (payload : json) (cfg : WordCloudConfig) : list string :=
  _iter_json_strings payload (resolved_json_keys cfg)
                     (collect_all_json_strings cfg) false.

(** The condition under which the legacy path is taken. *)
Definition fallback_taken (payload : json) (cfg : WordCloudConfig) : bool :=
  match primary_strings payload cfg with [] => true | _ => false end
  && negb (collect_all_json_strings cfg)
  && negb (bool_decide ("plaintext" ∈ resolved_json_keys cfg)).

(** [[post.get("plaintext", "") for post in extract_posts(payload)]] *)
Definition legacy_strings (payload : json) : result (list json) :=
  bind (extract_posts payload) (fun posts =>
  bind (py_iter posts) (fun posts =>
  traverse (fun post => py_get post "plaintext" (JStr EmptyString)) posts)).

(** [" \n".join(s for s in strings if s)]: a truthy item that is not a
    string makes [join] raise. *)
Definition join_truthy (strings : list json) : result string :=
  bind (traverse (fun v => match v with JStr s => Ok s | _ => Raise TypeError end)
                 (filter (fun v => truthy v = true) strings))
       (fun parts => Ok (Str.join (String " " (String "010" EmptyString)) parts)).

Definition extract_text_from_json_payload (payload : json) (cfg : WordCloudConfig)
  : result string :=
  let strings := primary_strings payload cfg in
  bind (if fallback_taken payload cfg
        then (if is_mapping payload then legacy_strings payload else Ok [])
        else Ok (JStr <$> strings))
       join_truthy.

(** ** Vocabulary of the statements *)

(** The number of occurrences of [x] in [l]. *)
Definition occurrences (x : string) (l : list string) : Z :=
  Z.of_nat (length (filter (fun y => y = x) l)).

(** Whether the tokens at the positions [i] and [i + 1] of the sequence,
    joined by one space, make [k]. *)
Definition bigram_at (k : string) (tokens : list string) (i : nat) : bool :=
  match tokens !! i, tokens !! S i with
  | Some word1, Some word2 => bool_decide (word1 +:+ " " +:+ word2 = k)
  | _, _ => false
  end.

(** The number of positions of the token sequence at which two
    consecutive tokens make [k]. *)
Definition adjacent_bigrams (k : string) (tokens : list string) : Z :=
  Z.of_nat (length (filter (fun i => bigram_at k tokens i = true)
                           (seq 0 (length tokens)))).

(** A configuration that differs from [cfg] in its JSON key selection. *)
Definition with_json_text_keys (ks : option (gset string)) (cfg : WordCloudConfig)
  : WordCloudConfig := {|
  enabled_stop_groups := enabled_stop_groups cfg;
  extra_stopwords := extra_stopwords cfg;
  remove_stopwords := remove_stopwords cfg;
  keep_short_extra := keep_short_extra cfg;
  max_items := max_items cfg;
  max_font_size := max_font_size cfg;
  min_font_size := min_font_size cfg;
  size_curve_power := size_curve_power cfg;
  min_token_length := min_token_length cfg;
  reference_weight := reference_weight cfg;
  boost_map := boost_map cfg;
  weight_breaks := weight_breaks cfg;
  detect_references := detect_references cfg;
  json_text_keys := ks;
  collect_all_json_strings := collect_all_json_strings cfg;
  manual_weight_adjustments := manual_weight_adjustments cfg
|}.

(** [{"db":[{"data":{"posts":[{"plaintext":"hello world"}]}}]}] *)
Definition ghost_export : json :=
  JDict [("db", JList [JDict [("data",
    JDict [("posts", JList [JDict [("plaintext", JStr "hello world")]])])]])].

(** [{"db": []}] *)
Definition empty_db : json := JDict [("db", JList [])].

(** The references found in a text, as [extract_tokens_and_references]
    returns them. *)
Definition detect (text : string) (cfg : WordCloudConfig) : list string :=
  snd (extract_tokens_and_references text cfg).

(** A word as [str.split] produces it: not empty, without white space. *)
Definition word_like (w : string) : Prop :=
  w <> EmptyString /\ Str.all (fun c => negb (Char.is_space c)) w = true.

(** What [norm_ref] does to one word of the book name. *)
Definition cap_word (p : string) : string :=
  if Str.isalpha p then Str.capitalize p else p.


(** The final count and the weight that a run of [compute_word_weights]
    gives to the key [k], when the run returns and has the key. *)
Definition final_count_of
  (r : option (gmap string Z * gmap string WordCountStat)) (k : string) : option Z :=
  r ≫= fun ws => final_count <$> snd ws !! k.

Definition weight_of
  (r : option (gmap string Z * gmap string WordCountStat)) (k : string) : option Z :=
  r ≫= fun ws => fst ws !! k.

(** Whether a call returned. *)
Definition returned {A : Type} (r : option A) : bool :=
  match r with Some _ => true | None => false end.

(** ** The declarative reading of the patterns *)

(** [Matches r c c']: the pattern [r] matches the text between the
    positions [c] and [c'].  A repetition counts the iterations that
    consume at least one character. *)
Inductive Matches : Re.regex -> Re.cursor -> Re.cursor -> Prop :=
| M_Eps c : Matches Re.Eps c c
| M_Chr p b x t :
    p x = true ->
    Matches (Re.Chr p) (Re.Cursor b (String x t)) (Re.Cursor (Some x) t)
| M_Cat r1 r2 c c1 c2 :
    Matches r1 c c1 -> Matches r2 c1 c2 -> Matches (Re.Cat r1 r2) c c2
| M_AltL r1 r2 c c' : Matches r1 c c' -> Matches (Re.Alt r1 r2) c c'
| M_AltR r1 r2 c c' : Matches r2 c c' -> Matches (Re.Alt r1 r2) c c'
| M_Star0 r c : Matches (Re.Star r) c c
| M_StarS r c c1 c2 :
    Matches r c c1 -> (Re.remaining c1 < Re.remaining c)%nat ->
    Matches (Re.Star r) c1 c2 -> Matches (Re.Star r) c c2
| M_WordB c : Re.at_boundary c = true -> Matches Re.WordB c c.

(** The last character of a text. *)
Fixpoint last_char (s : string) : option ascii :=
  match s with
  | EmptyString => None
  | String c EmptyString => Some c
  | String _ t => last_char t
  end.

(** The position of a subject [pre +:+ post] between [pre] and [post]. *)
Definition position (pre post : string) : Re.cursor :=
  Re.Cursor (last_char pre) post.

(** A word of letters. *)
Definition letters_word (w : string) : Prop :=
  w <> EmptyString /\ Str.all Char.is_alpha w = true.

(** A text that contains a match of [r]. *)
Definition contains_match (r : Re.regex) (s : string) : Prop :=
  exists pre m post,
    s = pre +:+ m +:+ post
    /\ Matches r (position pre (m +:+ post)) (position (pre +:+ m) post).

(** A text that starts with a character outside the set [p]. *)
Definition head_ok (p : ascii -> bool) (s : string) : Prop :=
  match s with String c _ => p c = false | EmptyString => False end.

(** The text of [ws], each word behind a space. *)
Fixpoint spaced (ws : list string) : string :=
  match ws with
  | [] => EmptyString
  | w :: rest => " " +:+ w +:+ spaced rest
  end.

(** [(?: [A-Za-z]+)], the repeated group of [LETTERS]. *)
Definition GROUP : Re.regex :=
  Re.Cat (Re.Lit " ") (Re.Plus (Re.Chr Char.is_alpha)).

(** ** Vocabulary of the further properties *)

(** A NaN or an infinity. *)
Definition non_finite (x : Float.t) : Prop :=
  match x with
  | S754_nan | S754_infinity _ => True
  | _ => False
  end.

(** The strings of a JSON value, in document order. *)
Fixpoint string_leaves (v : json) : list string :=
  match v with
  | JStr s => [s]
  | JDict d => flat_map (fun kv => string_leaves (snd kv)) d
  | JList l => flat_map string_leaves l
  | _ => []
  end.

(** A Ghost export whose posts have the given plain texts:
    [{"db": [{"data": {"posts": [{"plaintext": t}, ...]}}]}]. *)
Definition ghost_of (texts : list string) : json :=
  JDict [("db", JList [JDict [("data",
    JDict [("posts",
      JList ((fun t => JDict [("plaintext", JStr t)]) <$> texts))])]])].

(** The words that [tokenize_text] hands to [split_weird_token]:
    [text.split()] after the lowercasing and the five substitutions. *)
Definition raw_words (body : string) : list string :=
  let text := Str.lower body in
  let text := Re.sub URL blank text in
  let text := Re.sub MARKUP blank text in
  let text := Re.sub MD_LINK blank text in
  let text := Re.sub NOT_TOKEN_CHAR blank text in
  let text := Str.strip (Re.sub SPACES blank text) in
  Str.split text.

(** A split at the boundaries between letters and digits only:
    [split_weird_token] without its first substitution. *)
Definition split_at_digits (token : string) : list string :=
  filter (fun piece => piece <> EmptyString)
    (Str.split (Re.sub DIGIT_LOWER spaced_pair
                  (Re.sub LOWER_DIGIT spaced_pair token))).

(** A text of ASCII characters: the texts on which the strings of this
    development and Python's [str] methods agree. *)
Definition ascii_text (s : string) : Prop :=
  Str.all (fun c => (Char.code c <? 128)%N) s = true.

(** The separator of the extracted text, a space and a line feed. *)
Definition TEXT_SEP : string := String " " (String "010" EmptyString).


(** A configuration that differs from [cfg] in its extra stopwords. *)
Definition with_extra_stopwords (ws : gset string) (cfg : WordCloudConfig)
  : WordCloudConfig := {|
  enabled_stop_groups := enabled_stop_groups cfg;
  extra_stopwords := ws;
  remove_stopwords := remove_stopwords cfg;
  keep_short_extra := keep_short_extra cfg;
  max_items := max_items cfg;
  max_font_size := max_font_size cfg;
  min_font_size := min_font_size cfg;
  size_curve_power := size_curve_power cfg;
  min_token_length := min_token_length cfg;
  reference_weight := reference_weight cfg;
  boost_map := boost_map cfg;
  weight_breaks := weight_breaks cfg;
  detect_references := detect_references cfg;
  json_text_keys := json_text_keys cfg;
  collect_all_json_strings := collect_all_json_strings cfg;
  manual_weight_adjustments := manual_weight_adjustments cfg
|}.

(** ** Command line (wordcloud.py) *)

(** [resolved_stop_groups(disabled, enabled)]; the two arguments are the
    lists that the repeated options build. *)
Definition resolved_stop_groups (disabled enabled : list string) : gset string :=
  let groups : gset string := list_to_set DEFAULT_STOP_GROUPS in
  let groups := groups ∖ list_to_set disabled in
  let groups :=
    match enabled with
    | [] => groups
    | _ => groups ∪ list_to_set enabled
    end in
  if decide (groups = ∅) then groups ∪ list_to_set DEFAULT_STOP_GROUPS
  else groups.

Definition THEME_PRESETS : list (string * list string) := [
  ("muted",
   ["#0f172a"; "#334155"; "#475569"; "#64748b"; "#94a3b8"; "#cbd5e1";
    "#0b3d3a"; "#116a63"; "#2a8c82"; "#7fb3ad"; "#c9e3df";
    "#4a5b3f"; "#6b7f5a"; "#8fa37b"; "#b7c9a6";
    "#6b5e57"; "#8a7a70"; "#b3a79f";
    "#5b5b7a"; "#7a7aa0"; "#a3a3c4"]);
  ("forest",
   ["#102418"; "#1f3f2b"; "#325c3b"; "#4a7d4d"; "#6a9f5f"; "#8fc172";
    "#b9db9c"; "#eff7d3"]);
  ("sunrise",
   ["#1c1a4a"; "#3b3170"; "#6d3f9f"; "#a54bb7"; "#d855a8"; "#f26a7f";
    "#ffa86e"; "#fdd27f"]);
  ("grayscale",
   ["#0f172a"; "#1f2937"; "#374151"; "#4b5563"; "#6b7280"; "#9ca3af";
    "#d1d5db"; "#e5e7eb"; "#f3f4f6"]);
  ("ocean",
   ["#0b1f3a"; "#123c69"; "#1c5a8f"; "#2877b5"; "#3495db"; "#3fb3ff";
    "#72c9ff"; "#a6e0ff"]);
  ("citrus",
   ["#231f20"; "#4a3424"; "#804a24"; "#ba5d21"; "#f97316"; "#fbbf24";
    "#fde047"; "#fef9c3"])
].

(** [THEME_PRESETS.get(name)] *)
Definition theme_preset (name : string) : option (list string) :=
  snd <$> find (fun p => String.eqb (fst p) name) THEME_PRESETS.

Definition DEFAULT_PALETTE : list string := default [] (theme_preset "muted").

(** [s.split(sep)] for a separator of one character: the pieces between
    the separators, the empty ones included.  [cur] is the piece being
    read, reversed. *)
Fixpoint split_on_go (sep : ascii) (s cur : string) : list string :=
  match s with
  | EmptyString => [Str.rev cur]
  | String c t =>
      if Char.eqb c sep then Str.rev cur :: split_on_go sep t EmptyString
      else split_on_go sep t (String c cur)
  end.

Definition split_on (sep : ascii) (s : string) : list string :=
  split_on_go sep s EmptyString.

(** [parse_palette(raw)]; [None] is Python's [None]. *)
Definition parse_palette (raw : option string) : list string :=
  match raw with
  | None => DEFAULT_PALETTE
  | Some raw =>
      if Str.is_empty raw then DEFAULT_PALETTE
      else
        let lower := Str.lower (Str.strip raw) in
        match theme_preset lower with
        | Some preset => preset
        | None =>
            let colours :=
              Str.strip <$> filter (fun colour => Str.strip colour <> EmptyString)
                                   (split_on "," raw) in
            match colours with
            | [] => DEFAULT_PALETTE
            | _ => colours
            end
        end
  end.

(** A palette that the renderer can cycle through: not empty, and no
    colour of it empty. *)
Definition usable_palette (palette : list string) : Prop :=
  palette <> [] /\ Forall (fun colour => colour <> EmptyString) palette.

(** ** Web application (app.py) *)

(** [[group for group in requested if group in allowed]]: a list or an
    object among the requested values cannot be hashed, and the membership
    test raises; a value that is not a string is in no set of names. *)
Fixpoint keep_allowed (requested : list json) : result (list string) :=
  match requested with
  | [] => Ok []
  | group :: rest =>
      match group with
      | JStr name =>
          bind (keep_allowed rest) (fun kept =>
          Ok (if bool_decide (name ∈ fst <$> STOP_GROUPS) then name :: kept
              else kept))
      | JList _ | JDict _ => Raise TypeError
      | _ => keep_allowed rest
      end
  end.

Definition parse_stopword_groups (payload : json) : result (list string) :=
  bind (py_get payload "stopwordGroups" JNull) (fun requested =>
  match requested with
  | JNull => Ok DEFAULT_STOP_GROUPS
  | _ => bind (py_iter requested) keep_allowed
  end).

(** The key of the token cache.  A tuple of the sorted members of a set
    is modelled as the set: two such tuples are equal exactly when the
    sets are. *)
Record CacheKey : Type := {
  ck_path : string;
  ck_file_type : string;
  ck_mtime_ns : Z;
  ck_stopwords : gset string;
  ck_keep_short : gset string;
  ck_min_token_length : Z;
  ck_collect_all : bool;
  ck_json_keys : gset string;
  ck_detect_references : bool
}.

#[global] Instance CacheKey_eq_dec : EqDecision CacheKey.
Proof. solve_decision. Defined.

(** The tuple that [build_token_cache_key] returns for a file whose
    modification time is [mtime_ns]. *)
Definition cache_key_of (path file_type : string) (mtime_ns : Z)
  (cfg : WordCloudConfig) : CacheKey := {|
  ck_path := path;
  ck_file_type := file_type;
  ck_mtime_ns := mtime_ns;
  ck_stopwords := stopwords cfg;
  ck_keep_short := keep_short cfg;
  ck_min_token_length := min_token_length cfg;
  ck_collect_all := collect_all_json_strings cfg;
  ck_json_keys := default ∅ (json_text_keys cfg);
  ck_detect_references := detect_references cfg
|}.

(** [build_token_cache_key(path, file_type, config)]; [mtime_ns] is what
    [path.stat()] gives, [None] when it raises [OSError], and the result
    is [None] then. *)
Definition build_token_cache_key (path file_type : string) (mtime_ns : option Z)
  (cfg : WordCloudConfig) : option CacheKey :=
  stat ← mtime_ns; Some (cache_key_of path file_type stat cfg).

(** [CACHE_CAPACITY], from the integer that the environment gives. *)
Definition CACHE_CAPACITY (setting : Z) : Z := Z.max 1 setting.

Section TokenCache.

Context {K V : Type} `{EqDecision K}.

(** An [OrderedDict]: the entries in their order, the oldest first. *)
Definition ordered_dict : Type := list (K * gmap string V).

(** [d.get(k)] *)
Definition od_get (d : ordered_dict) (k : K) : option (gmap string V) :=
  snd <$> find (fun kv => bool_decide (fst kv = k)) d.

(** [d[k] = entry]: a key that is present keeps its place. *)
Fixpoint od_set (d : ordered_dict) (k : K) (entry : gmap string V) : ordered_dict :=
  match d with
  | [] => [(k, entry)]
  | (k', e') :: rest =>
      if decide (k' = k) then (k, entry) :: rest
      else (k', e') :: od_set rest k entry
  end.

(** [d.move_to_end(k)]; [None] when it raises [KeyError]. *)
Definition od_move_to_end (d : ordered_dict) (k : K) : option ordered_dict :=
  entry ← od_get d k;
  Some (filter (fun kv => fst kv <> k) d ++ [(k, entry)]).

(** [while len(d) > capacity: d.popitem(last=False)] *)
Fixpoint evict (capacity : Z) (d : ordered_dict) : ordered_dict :=
  match d with
  | [] => []
  | _ :: rest =>
      if capacity <? Z.of_nat (length d) then evict capacity rest else d
  end.

(** [get_cached_prepared] on the cache [d]; [built] is the outcome of
    [build_token_cache_key].  The result is the pair returned and the
    cache afterwards, [None] when an exception escapes. *)
Definition get_cached_prepared (enabled : bool) (d : ordered_dict)
  (built : option K)
  : option ((option K * option (gmap string V)) * ordered_dict) :=
  if negb enabled then Some ((None, None), d)
  else
    match built with
    | None => Some ((None, None), d)
    | Some k =>
        match od_get d k with
        | Some entry =>
            d' ← od_move_to_end d k;
            Some ((Some k, Some entry), d')
        | None => Some ((Some k, None), d)
        end
    end.

(** [store_cache_entry(cache_key, entry)] on the cache [d]: the cache
    afterwards, [None] when an exception escapes. *)
Definition store_cache_entry (enabled : bool) (setting : Z) (d : ordered_dict)
  (cache_key : option K) (entry : gmap string V) : option ordered_dict :=
  if negb enabled then Some d
  else
    match cache_key with
    | None => Some d
    | Some k =>
        if negb (bool_decide (is_Some (entry !! "tokens")))
           || negb (bool_decide (is_Some (entry !! "references")))
        then Some d
        else
          d' ← od_move_to_end (od_set d k entry) k;
          Some (evict (CACHE_CAPACITY setting) d')
    end.

End TokenCache.

(** [sum(xs)] on integers. *)
Definition py_sum (xs : list Z) : Z := foldl Z.add 0 xs.

(** The totals of [build_analysis_payload]; the list of the words, whose
    order among equal final counts is that of the dictionary, is left
    out. *)
Record Analysis : Type := {
  totalTokens : Z;
  totalFinal : Z;
  uniqueTokens : Z;
  referenceMatches : Z;
  referenceCounts : gmap string Z
}.

Definition build_analysis_payload (stats : gmap string WordCountStat)
  (final_counts : gmap string Z) (references : list string) : Analysis :=
  let total_tokens := py_sum (base_count <$> (snd <$> map_to_list stats)) in
  let final_total := py_sum (snd <$> map_to_list final_counts) in
  let reference_counter := Counter references in
  {| totalTokens := total_tokens;
     totalFinal := final_total;
     uniqueTokens := Z.of_nat (size stats);
     referenceMatches := py_sum (snd <$> map_to_list reference_counter);
     referenceCounts := reference_counter |}.
(** * Properties *)

(** ** Characters and strings *)

Module StrFacts.

Lemma app_nil (t : string) : "" +:+ t = t.
Proof. reflexivity. Qed.

Lemma app_cons (c : ascii) (s t : string) : String c s +:+ t = String c (s +:+ t).
Proof. reflexivity. Qed.

Lemma app_empty_r (s : string) : s +:+ "" = s.
Proof. induction s as [| c s IH]; [reflexivity | by rewrite app_cons, IH]. Qed.

Lemma app_assoc (s t u : string) : (s +:+ t) +:+ u = s +:+ t +:+ u.
Proof. induction s as [| c s IH]; [reflexivity | by rewrite !app_cons, IH]. Qed.

Lemma rev_onto_app (s acc : string) : Str.rev_onto s acc = Str.rev s +:+ acc.
Proof.
  unfold Str.rev. revert acc.
  induction s as [| c s IH]; intros acc; simpl; [reflexivity |].
  rewrite (IH (String c acc)), (IH (String c "")), app_assoc. reflexivity.
Qed.

Lemma rev_cons (c : ascii) (s : string) : Str.rev (String c s) = Str.rev s +:+ String c "".
Proof. unfold Str.rev at 1. simpl. apply rev_onto_app. Qed.

Lemma rev_app (s t : string) : Str.rev (s +:+ t) = Str.rev t +:+ Str.rev s.
Proof.
  induction s as [| c s IH].
  - by rewrite app_nil, app_empty_r.
  - by rewrite app_cons, !rev_cons, IH, app_assoc.
Qed.

Lemma rev_involutive (s : string) : Str.rev (Str.rev s) = s.
Proof.
  induction s as [| c s IH]; [reflexivity |].
  by rewrite rev_cons, rev_app, IH.
Qed.

Lemma all_app p (s t : string) : Str.all p (s +:+ t) = Str.all p s && Str.all p t.
Proof.
  induction s as [| c s IH]; [reflexivity |].
  rewrite app_cons. simpl. by rewrite IH, andb_assoc.
Qed.

Lemma all_rev p (s : string) : Str.all p (Str.rev s) = Str.all p s.
Proof.
  induction s as [| c s IH]; [reflexivity |].
  rewrite rev_cons, all_app, IH. simpl. rewrite andb_true_r. apply andb_comm.
Qed.

Lemma rev_empty (s : string) : Str.rev s = "" -> s = "".
Proof. intros H. rewrite <- (rev_involutive s), H. reflexivity. Qed.

Lemma lstrip_by_head p c s : p c = false -> Str.lstrip_by p (String c s) = String c s.
Proof. intros H. simpl. by rewrite H. Qed.

Lemma strip_by_id p s :
  head_ok p s -> head_ok p (Str.rev s) -> Str.strip_by p s = s.
Proof.
  intros Hh Hl. unfold Str.strip_by, Str.rstrip_by.
  destruct s as [| c s]; [destruct Hh |].
  rewrite lstrip_by_head by exact Hh.
  destruct (Str.rev (String c s)) as [| d u] eqn:E; [destruct Hl |].
  rewrite lstrip_by_head by exact Hl.
  rewrite <- E. apply rev_involutive.
Qed.

Lemma head_ok_app p s t : head_ok p s -> head_ok p (s +:+ t).
Proof. destruct s; [intros [] | intros H; exact H]. Qed.

Lemma head_ok_all p s : s <> "" -> Str.all (fun c => negb (p c)) s = true -> head_ok p s.
Proof.
  destruct s as [| c s]; [congruence |]. simpl. intros _ H.
  apply andb_true_iff in H as [H _]. by apply negb_true_iff in H.
Qed.

End StrFacts.

Module CharFacts.

Lemma upper_not_space c : Char.is_space c = false -> Char.is_space (Char.upper c) = false.
Proof.
  destruct c as [[] [] [] [] [] [] [] []]; intros H; vm_compute in H |- *;
    first [reflexivity | discriminate H].
Qed.

Lemma lower_not_digit c : Char.is_lower c = true -> Char.is_digit c = false.
Proof.
  destruct c as [[] [] [] [] [] [] [] []]; intros H; vm_compute in H |- *;
    first [reflexivity | discriminate H].
Qed.

Lemma alpha_not_space c : Char.is_alpha c = true -> Char.is_space c = false.
Proof.
  destruct c as [[] [] [] [] [] [] [] []]; intros H; vm_compute in H |- *;
    first [reflexivity | discriminate H].
Qed.

End CharFacts.

Module SplitFacts.
Import StrFacts.

Lemma split_go_word w rest cur :
  Str.all (fun c => negb (Char.is_space c)) w = true ->
  Str.split_go (w +:+ rest) cur = Str.split_go rest (Str.rev w +:+ cur).
Proof.
  revert cur. induction w as [| c w IH]; intros cur H; [reflexivity |].
  simpl in H. apply andb_true_iff in H as [Hc Hw]. apply negb_true_iff in Hc.
  rewrite app_cons. simpl. rewrite Hc, (IH _ Hw), rev_cons, app_assoc.
  reflexivity.
Qed.

Lemma is_empty_false s : s <> "" -> Str.is_empty s = false.
Proof. destruct s; [congruence | reflexivity]. Qed.

Lemma rev_nonempty s : s <> "" -> Str.rev s <> "".
Proof. intros H E. apply H, rev_empty, E. Qed.

Lemma split_go_space t cur :
  cur <> "" -> Str.split_go (String " " t) cur = Str.rev cur :: Str.split_go t "".
Proof. intros H. simpl. by rewrite (is_empty_false _ H). Qed.

Lemma split_join ws :
  Forall word_like ws -> Str.split (Str.join " " ws) = ws.
Proof.
  induction 1 as [| w ws [Hne Hsp] Hws IH]; [reflexivity |].
  unfold Str.split in *. destruct ws as [| v ws].
  - simpl. rewrite <- (app_empty_r w) at 1.
    rewrite (split_go_word _ _ _ Hsp), app_empty_r. simpl.
    rewrite (is_empty_false _ (rev_nonempty _ Hne)), rev_involutive. reflexivity.
  - change (Str.join " " (w :: v :: ws)) with (w +:+ " " +:+ Str.join " " (v :: ws)).
    rewrite (split_go_word _ _ _ Hsp), app_empty_r.
    change (" " +:+ Str.join " " (v :: ws)) with (String " " (Str.join " " (v :: ws))).
    rewrite (split_go_space _ _ (rev_nonempty _ Hne)), rev_involutive, IH.
    reflexivity.
Qed.

Lemma join_snoc sep xs y :
  xs <> [] -> Str.join sep (xs ++ [y]) = Str.join sep xs +:+ sep +:+ y.
Proof.
  induction xs as [| x xs IH]; [congruence |]. intros _.
  destruct xs as [| x' xs]; [reflexivity |].
  change (Str.join sep ((x :: x' :: xs) ++ [y]))
    with (x +:+ sep +:+ Str.join sep ((x' :: xs) ++ [y])).
  rewrite IH by congruence.
  change (Str.join sep (x :: x' :: xs)) with (x +:+ sep +:+ Str.join sep (x' :: xs)).
  by rewrite !app_assoc.
Qed.

Lemma cap_word_head w : word_like w -> head_ok Char.is_space (cap_word w).
Proof.
  intros [Hne Hsp]. unfold cap_word. destruct (Str.isalpha w) eqn:Ha.
  - destruct w as [| c w]; [congruence |]. simpl.
    simpl in Hsp. apply andb_true_iff in Hsp as [Hc _].
    apply negb_true_iff in Hc. by apply CharFacts.upper_not_space.
  - by apply head_ok_all.
Qed.

Lemma join_head p sep x xs : head_ok p x -> head_ok p (Str.join sep (x :: xs)).
Proof.
  intros H. destruct xs; [exact H |].
  change (Str.join sep (x :: s :: xs)) with (x +:+ sep +:+ Str.join sep (s :: xs)).
  by apply head_ok_app.
Qed.

(** The parts that [split] returns are words. *)
Lemma split_go_word_like s : forall cur,
  Str.all (fun c => negb (Char.is_space c)) cur = true ->
  Forall word_like (Str.split_go s cur).
Proof.
  induction s as [| c s IH]; intros cur Hcur; simpl.
  - destruct cur as [| d cur]; simpl; [constructor |].
    constructor; [| constructor]. split.
    + by apply rev_nonempty.
    + by rewrite all_rev.
  - destruct (Char.is_space c) eqn:Ec.
    + destruct cur as [| d cur]; simpl; [by apply IH |].
      constructor; [| by apply IH]. split.
      * by apply rev_nonempty.
      * by rewrite all_rev.
    + apply IH. simpl. by rewrite Ec, Hcur.
Qed.

Lemma split_word_like s : Forall word_like (Str.split s).
Proof. by apply split_go_word_like. Qed.

End SplitFacts.

(** ** The matcher and the declarative reading of the patterns *)

Module ReFacts.
Import Re.

Lemma flat_map_nil_ext {A B} (f : A -> list B) (l : list A) :
  (forall x, x ∈ l -> f x = []) -> flat_map f l = [].
Proof.
  induction l as [| x l IH]; intros H; [reflexivity |]. simpl.
  rewrite (H x) by (apply elem_of_cons; by left).
  apply IH. intros y Hy. apply H, elem_of_cons. by right.
Qed.

Lemma elem_of_flat_map {A B} (f : A -> list B) (l : list A) (y : B) :
  y ∈ flat_map f l <-> exists x, x ∈ l /\ y ∈ f x.
Proof.
  induction l as [| a l IH]; simpl.
  - split; [intros H; by apply elem_of_nil in H |].
    intros (x & Hx & _). by apply elem_of_nil in Hx.
  - rewrite elem_of_app, IH. split.
    + intros [H | (x & Hx & Hy)].
      * exists a. split; [apply elem_of_cons; by left | exact H].
      * exists x. split; [apply elem_of_cons; by right | exact Hy].
    + intros (x & Hx & Hy). apply elem_of_cons in Hx as [-> | Hx]; [by left |].
      right. by exists x.
Qed.

(** Fuel beyond the length of the remaining text is never used. *)
Lemma star_loop_fuel step n m c :
  (remaining c <= n)%nat -> (remaining c <= m)%nat ->
  star_loop step n c = star_loop step m c.
Proof.
  revert m c. induction n as [| n IH]; intros m c Hn Hm.
  - destruct m as [| m]; [reflexivity |]. simpl.
    rewrite flat_map_nil_ext; [reflexivity |]. intros c' _.
    destruct (remaining c' <? remaining c)%nat eqn:E; [| reflexivity].
    apply Nat.ltb_lt in E. lia.
  - destruct m as [| m]; simpl.
    + rewrite flat_map_nil_ext; [reflexivity |]. intros c' _.
      destruct (remaining c' <? remaining c)%nat eqn:E; [| reflexivity].
      apply Nat.ltb_lt in E. lia.
    + f_equal. apply flat_map_ext. intros c'.
      destruct (remaining c' <? remaining c)%nat eqn:E; [| reflexivity].
      apply Nat.ltb_lt in E. apply IH; lia.
Qed.

Lemma elem_of_star_loop step n c c' :
  c' ∈ star_loop step (S n) c
  <-> c' = c \/ exists c1, c1 ∈ step c /\ (remaining c1 < remaining c)%nat
                           /\ c' ∈ star_loop step n c1.
Proof.
  simpl. rewrite elem_of_app, elem_of_flat_map, list_elem_of_singleton. split.
  - intros [(c1 & H1 & H2) | ->]; [right | by left].
    exists c1. destruct (remaining c1 <? remaining c)%nat eqn:E.
    + apply Nat.ltb_lt in E. done.
    + by apply elem_of_nil in H2.
  - intros [-> | (c1 & H1 & Hlt & H2)]; [by right | left].
    exists c1. split; [exact H1 |].
    apply Nat.ltb_lt in Hlt. by rewrite Hlt.
Qed.

(** The matcher finds exactly the matches of the declarative reading. *)
Lemma run_sound r : forall c c', c' ∈ run r c -> Matches r c c'.
Proof.
  induction r as [| p | r1 IH1 r2 IH2 | r1 IH1 r2 IH2 | r IH |]; intros c c' H;
    simpl in H.
  - apply list_elem_of_singleton in H as ->. constructor.
  - destruct c as [b [| x t]]; simpl in H; [by apply elem_of_nil in H |].
    destruct (p x) eqn:E; [| by apply elem_of_nil in H].
    apply list_elem_of_singleton in H as ->. by constructor.
  - apply elem_of_flat_map in H as (c1 & H1 & H2).
    eapply M_Cat; [apply IH1 | apply IH2]; eassumption.
  - apply elem_of_app in H as [H | H]; [apply M_AltL | apply M_AltR]; auto.
  - remember (remaining c) as n eqn:En.
    assert (Hn : (remaining c <= n)%nat) by lia. clear En.
    revert c c' Hn H. induction n as [| n IHn]; intros c c' Hn H.
    + simpl in H. apply list_elem_of_singleton in H as ->. constructor.
    + apply elem_of_star_loop in H as [-> | (c1 & H1 & Hlt & H2)]; [constructor |].
      eapply M_StarS; [apply IH; exact H1 | exact Hlt |].
      apply IHn; [lia | exact H2].
  - destruct (at_boundary c) eqn:E; [| by apply elem_of_nil in H].
    apply list_elem_of_singleton in H as ->. by constructor.
Qed.

Lemma run_complete r c c' : Matches r c c' -> c' ∈ run r c.
Proof.
  induction 1 as [c | p b x t Hp | r1 r2 c c1 c2 _ IH1 _ IH2
                 | r1 r2 c c' _ IH | r1 r2 c c' _ IH | r c
                 | r c c1 c2 _ IH1 Hlt _ IH2 | c Hb]; simpl.
  - by apply list_elem_of_singleton.
  - rewrite Hp. by apply list_elem_of_singleton.
  - apply elem_of_flat_map. by exists c1.
  - apply elem_of_app. by left.
  - apply elem_of_app. by right.
  - destruct (remaining c); simpl.
    + by apply list_elem_of_singleton.
    + apply elem_of_app. right. by apply list_elem_of_singleton.
  - destruct (remaining c) as [| n] eqn:En; [lia |].
    apply elem_of_star_loop. right. exists c1. split; [exact IH1 |].
    split; [lia |]. simpl in IH2.
    rewrite (star_loop_fuel _ n (remaining c1)); [exact IH2 | lia | lia].
  - rewrite Hb. by apply list_elem_of_singleton.
Qed.

Lemma elem_of_run r c c' : c' ∈ run r c <-> Matches r c c'.
Proof. split; [apply run_sound | apply run_complete]. Qed.

End ReFacts.

Module MatchFacts.
Import Re ReFacts StrFacts.

Lemma last_char_cons x s :
  last_char (String x s) = match last_char s with Some y => Some y | None => Some x end.
Proof.
  destruct s as [| a s]; [reflexivity |].
  change (last_char (String x (String a s))) with (last_char (String a s)).
  assert (H : exists y, last_char (String a s) = Some y).
  { clear x. revert a. induction s as [| b s IH]; intros a; [by exists a |].
    destruct (IH b) as [y Hy]. exists y. exact Hy. }
  destruct H as [y ->]. reflexivity.
Qed.

Lemma last_char_app a b :
  last_char (a +:+ b)
  = match last_char b with Some x => Some x | None => last_char a end.
Proof.
  induction a as [| x a IH].
  - rewrite app_nil. by destruct (last_char b).
  - rewrite app_cons, !last_char_cons, IH. by destruct (last_char b), (last_char a).
Qed.

Lemma length_app (a b : string) :
  String.length (a +:+ b) = (String.length a + String.length b)%nat.
Proof. induction a as [| x a IH]; [reflexivity |]. rewrite app_cons. simpl. by rewrite IH. Qed.

(** A match consumes a prefix of the text after its start, and ends at the
    position behind that prefix. *)
Lemma Matches_consumes r c c' :
  Matches r c c' ->
  exists w, after c = w +:+ after c'
            /\ before c' = match last_char w with
                           | Some x => Some x
                           | None => before c
                           end.
Proof.
  induction 1 as [c | p b x t Hp | r1 r2 c c1 c2 _ IH1 _ IH2
                 | r1 r2 c c' _ IH | r1 r2 c c' _ IH | r c
                 | r c c1 c2 _ IH1 Hlt _ IH2 | c Hb].
  - by exists "".
  - by exists (String x "").
  - destruct IH1 as (w1 & E1 & B1), IH2 as (w2 & E2 & B2).
    exists (w1 +:+ w2). rewrite app_assoc, <- E2, <- E1. split; [reflexivity |].
    rewrite last_char_app, B2, B1. by destruct (last_char w2).
  - exact IH.
  - exact IH.
  - by exists "".
  - destruct IH1 as (w1 & E1 & B1), IH2 as (w2 & E2 & B2).
    exists (w1 +:+ w2). rewrite app_assoc, <- E2, <- E1. split; [reflexivity |].
    rewrite last_char_app, B2, B1. by destruct (last_char w2).
  - by exists "".
Qed.

Lemma Matches_position r pre rest c' :
  Matches r (position pre rest) c' ->
  exists m post, rest = m +:+ post /\ c' = position (pre +:+ m) post.
Proof.
  intros H. apply Matches_consumes in H as (w & E & B). simpl in E, B.
  exists w, (after c'). split; [exact E |].
  destruct c' as [b' a']. simpl in *. unfold position. f_equal.
  by rewrite B, last_char_app.
Qed.

Lemma advance_position pre x t :
  advance (position pre (String x t)) = Some (position (pre +:+ String x "") t).
Proof.
  unfold advance, position. simpl. rewrite last_char_app. reflexivity.
Qed.

Lemma match_at_Some r c : match_at r c <> None <-> exists c', Matches r c c'.
Proof.
  unfold match_at. split.
  - destruct (run r c) as [| c' l] eqn:E; [done |]. intros _. exists c'.
    apply elem_of_run. rewrite E. apply elem_of_cons. by left.
  - intros (c' & H). apply elem_of_run in H.
    destruct (run r c); [by apply elem_of_nil in H | done].
Qed.

(** [search] looks for a match at every position of the subject. *)
Lemma search_from_spec r n : forall pre rest,
  (String.length rest <= n)%nat ->
  search_from r n (position pre rest) <> None
  <-> exists a b c', rest = a +:+ b /\ Matches r (position (pre +:+ a) b) c'.
Proof.
  induction n as [| n IH]; intros pre rest Hn.
  - destruct rest; [| simpl in Hn; lia]. simpl.
    destruct (match_at r (position pre "")) as [c' |] eqn:E.
    + split; [intros _ | intros _; discriminate].
      assert (H : match_at r (position pre "") <> None) by congruence.
      apply match_at_Some in H as (c1 & H). exists "", "", c1.
      split; [reflexivity | by rewrite app_empty_r].
    + split; [done |]. intros (a & b & c' & Hab & H).
      destruct a; [| discriminate Hab]. rewrite app_nil in Hab. subst b.
      rewrite app_empty_r in H.
      assert (H' : match_at r (position pre "") <> None)
        by (apply match_at_Some; by exists c').
      congruence.
  - simpl. destruct (match_at r (position pre rest)) as [c' |] eqn:E.
    + split; [intros _ | intros _; discriminate].
      assert (H : match_at r (position pre rest) <> None) by congruence.
      apply match_at_Some in H as (c1 & H). exists "", rest, c1.
      split; [reflexivity | by rewrite app_empty_r].
    + destruct rest as [| x t].
      * simpl. split; [done |]. intros (a & b & c' & Hab & H).
        destruct a; [| discriminate Hab]. rewrite app_nil in Hab. subst b.
        rewrite app_empty_r in H.
        assert (H' : match_at r (position pre "") <> None)
          by (apply match_at_Some; by exists c').
        congruence.
      * rewrite advance_position. rewrite IH by (simpl in Hn; lia). split.
        -- intros (a & b & c' & -> & H). exists (String x a), b, c'.
           split; [reflexivity |]. by rewrite app_assoc in H.
        -- intros (a & b & c' & Hab & H). destruct a as [| y a].
           ++ rewrite app_nil in Hab. subst b. rewrite app_empty_r in H.
              assert (H' : match_at r (position pre (String x t)) <> None)
                by (apply match_at_Some; by exists c').
              congruence.
           ++ rewrite app_cons in Hab. injection Hab as <- ->.
              exists a, b, c'. split; [reflexivity |]. by rewrite app_assoc.
Qed.

(** A match ends no further left than it starts, and [search] only moves
    to the right. *)
Lemma Matches_remaining r c c' : Matches r c c' -> (remaining c' <= remaining c)%nat.
Proof.
  intros H. apply Matches_consumes in H as (w & E & _).
  unfold remaining. rewrite E, length_app. lia.
Qed.

Lemma advance_remaining c c1 : advance c = Some c1 -> remaining c = S (remaining c1).
Proof.
  unfold advance, remaining. destruct (after c) as [| x t]; [discriminate |].
  by intros [= <-].
Qed.

Lemma search_from_bounds r n : forall c c0 c1,
  search_from r n c = Some (c0, c1) ->
  (remaining c0 <= remaining c)%nat /\ (remaining c1 <= remaining c0)%nat.
Proof.
  induction n as [| n IH]; intros c c0 c1 H; simpl in H;
    destruct (match_at r c) as [c' |] eqn:E.
  - injection H as <- <-. split; [lia |].
    apply Matches_remaining with r, elem_of_run.
    unfold match_at in E. destruct (run r c); [discriminate E |].
    injection E as ->. apply elem_of_cons. by left.
  - discriminate H.
  - injection H as <- <-. split; [lia |].
    apply Matches_remaining with r, elem_of_run.
    unfold match_at in E. destruct (run r c); [discriminate E |].
    injection E as ->. apply elem_of_cons. by left.
  - destruct (advance c) as [c2 |] eqn:Ea; [| discriminate H].
    apply advance_remaining in Ea. destruct (IH _ _ _ H). lia.
Qed.

(** The scans of [finditer] and [sub] never run out of fuel: any amount
    above the length of the remaining text gives the same result. *)
Lemma finditer_from_fuel r n : forall m c,
  (remaining c < n)%nat -> (remaining c < m)%nat ->
  finditer_from r n c = finditer_from r m c.
Proof.
  induction n as [| n IH]; intros m c Hn Hm; [lia |].
  destruct m as [| m]; [lia |]. simpl.
  destruct (search_from r (remaining c) c) as [[c0 c1] |] eqn:E; [| reflexivity].
  apply search_from_bounds in E as [H0 H1]. f_equal.
  destruct (remaining c1 <? remaining c0)%nat eqn:Elt.
  - apply Nat.ltb_lt in Elt. apply IH; lia.
  - destruct (advance c1) as [c2 |] eqn:Ea; [| reflexivity].
    apply advance_remaining in Ea. apply IH; lia.
Qed.

Lemma sub_from_fuel r repl n : forall m c,
  (remaining c < n)%nat -> (remaining c < m)%nat ->
  sub_from r repl n c = sub_from r repl m c.
Proof.
  induction n as [| n IH]; intros m c Hn Hm; [lia |].
  destruct m as [| m]; [lia |]. simpl.
  destruct (search_from r (remaining c) c) as [[c0 c1] |] eqn:E; [| reflexivity].
  apply search_from_bounds in E as [H0 H1]. do 2 f_equal.
  destruct (remaining c1 <? remaining c0)%nat eqn:Elt.
  - apply Nat.ltb_lt in Elt. apply IH; lia.
  - destruct (after c1) as [| x t] eqn:Ea; [reflexivity |]. f_equal.
    apply IH; unfold remaining in *; rewrite Ea in *; simpl in *; lia.
Qed.

Lemma search_spec r s : search r s = true <-> contains_match r s.
Proof.
  unfold search, contains_match, start.
  assert (Hiff : search_from r (String.length s) (position "" s) <> None
                 <-> exists a b c', s = a +:+ b /\ Matches r (position ("" +:+ a) b) c')
    by (apply search_from_spec; lia).
  change (Cursor None s) with (position "" s).
  split.
  - intros H.
    destruct (search_from r (String.length s) (position "" s)) eqn:E; [| discriminate H].
    destruct (proj1 Hiff ltac:(congruence)) as (a & b & c' & -> & Hm).
    rewrite app_nil in Hm.
    destruct (Matches_position _ _ _ _ Hm) as (m & post & -> & ->).
    by exists a, m, post.
  - intros (pre & m & post & -> & Hm).
    destruct (search_from r _ _) eqn:E; [reflexivity |].
    exfalso. apply (proj2 Hiff); [| reflexivity].
    exists pre, (m +:+ post), (position (pre +:+ m) post). by rewrite app_nil.
Qed.


Lemma fullmatch_spec r s :
  fullmatch r s = true <-> exists c', Matches r (start s) c' /\ after c' = "".
Proof.
  unfold fullmatch. rewrite existsb_exists. split.
  - intros (c' & Hin & He). exists c'. split.
    + by apply elem_of_run, list_elem_of_In.
    + by destruct (after c').
  - intros (c' & Hm & He). exists c'. split.
    + by apply list_elem_of_In, elem_of_run.
    + by rewrite He.
Qed.

(** Repetitions of a character class. *)
Lemma star_chr_inv p c c' :
  Matches (Star (Chr p)) c c' ->
  exists w, Str.all p w = true /\ after c = w +:+ after c'.
Proof.
  intros H. remember (Star (Chr p)) as r eqn:Er.
  induction H as [| | | | | r c | r c c1 c2 H1 _ Hlt H2 IH2 |]; try discriminate Er.
  - by exists "".
  - injection Er as ->. destruct (IH2 eq_refl) as (w & Hw & E).
    inversion H1 as [| p' b x t Hp | | | | | |]; subst.
    exists (String x w). simpl in *. rewrite Hp, Hw, E. done.
Qed.

Lemma plus_chr_inv p c c' :
  Matches (Plus (Chr p)) c c' ->
  exists w, w <> "" /\ Str.all p w = true /\ after c = w +:+ after c'.
Proof.
  intros H. inversion H as [| | r1 r2 c0 c1 c2 H1 H2 | | | | |]; subst.
  inversion H1 as [| p' b x t Hp | | | | | |]; subst.
  apply star_chr_inv in H2 as (w & Hw & E). simpl in E.
  exists (String x w). simpl. rewrite Hp, Hw, E. done.
Qed.

Lemma star_chr_intro p w : Str.all p w = true ->
  forall b rest, exists b', Matches (Star (Chr p)) (Cursor b (w +:+ rest)) (Cursor b' rest).
Proof.
  induction w as [| x w IH]; intros Hw b rest.
  - exists b. constructor.
  - simpl in Hw. apply andb_true_iff in Hw as [Hx Hw].
    destruct (IH Hw (Some x) rest) as [b' Hm]. exists b'.
    rewrite app_cons. eapply M_StarS; [by constructor | | exact Hm].
    unfold remaining. simpl. lia.
Qed.

Lemma plus_chr_intro p w : w <> "" -> Str.all p w = true ->
  forall b rest, exists b', Matches (Plus (Chr p)) (Cursor b (w +:+ rest)) (Cursor b' rest).
Proof.
  intros Hne Hw b rest. destruct w as [| x w]; [done |].
  simpl in Hw. apply andb_true_iff in Hw as [Hx Hw].
  destruct (star_chr_intro p w Hw (Some x) rest) as [b' Hm]. exists b'.
  rewrite app_cons. eapply M_Cat; [by constructor | exact Hm].
Qed.

Lemma join_spaced w ws : Str.join " " (w :: ws) = w +:+ spaced ws.
Proof.
  revert w. induction ws as [| v ws IH]; intros w.
  - simpl. by rewrite app_empty_r.
  - change (Str.join " " (w :: v :: ws)) with (w +:+ " " +:+ Str.join " " (v :: ws)).
    by rewrite IH.
Qed.

Lemma space_inv x : Char.eqb " " x = true -> x = " "%char.
Proof.
  destruct x as [[] [] [] [] [] [] [] []]; intros H; vm_compute in H;
    first [reflexivity | discriminate H].
Qed.

Lemma group_inv c c' :
  Matches GROUP c c' -> exists w, letters_word w /\ after c = " " +:+ w +:+ after c'.
Proof.
  intros H. inversion H as [| | r1 r2 c0 c1 c2 H1 H2 | | | | |]; subst.
  inversion H1 as [| | r1 r2 c0 c3 c4 H3 H4 | | | | |]; subst.
  inversion H3 as [| p' b x t Hp | | | | | |]; subst.
  inversion H4; subst.
  apply plus_chr_inv in H2 as (w & Hne & Hw & E). simpl in E.
  apply space_inv in Hp as ->.
  exists w. split; [by split |]. simpl. by rewrite E.
Qed.

Lemma star_group_inv c c' :
  Matches (Star GROUP) c c' ->
  exists ws, Forall letters_word ws /\ after c = spaced ws +:+ after c'.
Proof.
  intros H. remember (Star GROUP) as r eqn:Er.
  induction H as [| | | | | r c | r c c1 c2 H1 _ Hlt H2 IH2 |]; try discriminate Er.
  - by exists [].
  - injection Er as ->. destruct (IH2 eq_refl) as (ws & Hws & E).
    apply group_inv in H1 as (w & Hw & E1).
    exists (w :: ws). split; [by constructor |].
    simpl. by rewrite E1, E, !app_assoc.
Qed.

Lemma star_group_intro ws : Forall letters_word ws ->
  forall b rest, exists b', Matches (Star GROUP) (Cursor b (spaced ws +:+ rest)) (Cursor b' rest).
Proof.
  induction 1 as [| w ws [Hne Hw] _ IH]; intros b rest.
  - exists b. constructor.
  - destruct (plus_chr_intro _ w Hne Hw (Some " "%char) (spaced ws +:+ rest)) as [b1 H1].
    destruct (IH b1 rest) as [b' H2]. exists b'.
    simpl spaced. rewrite !app_assoc.
    eapply M_StarS; [| | exact H2].
    + eapply M_Cat; [| exact H1].
      change (" " +:+ w +:+ spaced ws +:+ rest)
        with (String " " (w +:+ spaced ws +:+ rest)).
      eapply M_Cat; [by constructor | constructor].
    + unfold remaining. simpl after. rewrite !length_app. simpl. lia.
Qed.

(** The keys that match [[A-Za-z]+(?: [A-Za-z]+)*] as a whole are the
    words of letters separated by single spaces. *)
Lemma fullmatch_LETTERS s :
  fullmatch LETTERS s = true
  <-> exists ws, ws <> [] /\ Forall letters_word ws /\ s = Str.join " " ws.
Proof.
  rewrite fullmatch_spec. split.
  - intros (c' & H & He).
    inversion H as [| | r1 r2 c0 c1 c2 H1 H2 | | | | |]; subst.
    apply plus_chr_inv in H1 as (w & Hne & Hw & E1).
    apply star_group_inv in H2 as (ws & Hws & E2).
    exists (w :: ws). split; [done |]. split; [by constructor |].
    simpl in E1. rewrite join_spaced, E1, E2, He, app_empty_r. reflexivity.
  - intros (ws & Hne & Hws & ->). destruct ws as [| w ws]; [done |].
    apply Forall_cons in Hws as [[Hw1 Hw2] Hws].
    rewrite join_spaced.
    destruct (plus_chr_intro _ w Hw1 Hw2 None (spaced ws)) as [b1 H1].
    destruct (star_group_intro ws Hws b1 "") as [b' H2].
    rewrite app_empty_r in H2.
    exists (Cursor b' ""). split; [| reflexivity].
    eapply M_Cat; [exact H1 | exact H2].
Qed.

End MatchFacts.

Import StrFacts SplitFacts.

(** ** Reference detector *)

Lemma norm_ref_parts m :
  Str.split m <> [] ->
  norm_ref m =
  Str.strip (Str.join " " (cap_word <$> removelast (Str.split m)) +:+ " " +:+
             (if (1 <? length (Str.split m))%nat
              then List.last (Str.split m) "" else "")).
Proof.
  intros H. unfold norm_ref. destruct (Str.split m); [congruence | reflexivity].
Qed.

(** The shape of a normalized reference, from the parts of the match. *)
Lemma norm_ref_split m words suffix :
  Str.split m = words ++ [suffix] -> words <> [] ->
  norm_ref m = Str.join " " ((cap_word <$> words) ++ [suffix]).
Proof.
  intros Hsplit Hne.
  pose proof (split_word_like m) as Hall. rewrite Hsplit in Hall.
  rewrite norm_ref_parts; rewrite Hsplit; [| by destruct words].
  rewrite removelast_last, last_last.
  assert (Hlen : (1 <? length (words ++ [suffix]))%nat = true).
  { apply Nat.ltb_lt. rewrite length_app. simpl. destruct words; [congruence | simpl; lia]. }
  rewrite Hlen.
  apply Forall_app in Hall as [Hwords Hsuffix].
  apply Forall_inv in Hsuffix.
  rewrite join_snoc by (destruct words; [congruence | discriminate]).
  apply strip_by_id.
  - destruct words as [| w ws]; [congruence |].
    apply Forall_inv in Hwords as Hw.
    rewrite fmap_cons. apply head_ok_app, join_head, cap_word_head, Hw.
  - rewrite <- !app_assoc, rev_app. apply head_ok_app.
    destruct Hsuffix as [Hs1 Hs2]. apply head_ok_all.
    + by apply rev_nonempty.
    + by rewrite all_rev.
Qed.

Lemma norm_ref_words words suffix :
  words <> [] -> Forall word_like (words ++ [suffix]) ->
  norm_ref (Str.join " " (words ++ [suffix]))
  = Str.join " " ((cap_word <$> words) ++ [suffix]).
Proof.
  intros Hne Hall. apply norm_ref_split; [by apply split_join | exact Hne].
Qed.

(** C8: with reference detection enabled, the text "See John 3:16 and
    1 Corinthians 13:4-7." yields the references "John 3:16" and
    "1 Corinthians 13:4-7", in that order; [norm_ref] capitalises the
    alphabetic words of the book name (all the parts of the match but the
    last), keeps the other ones (the numeric prefixes) as they are, and
    appends the chapter and verse suffix (the last part) unchanged, the
    parts separated by single spaces. *)
Theorem reference_detector cfg :
  detect_references cfg = true ->
  detect "See John 3:16 and 1 Corinthians 13:4-7." cfg
  = ["John 3:16"; "1 Corinthians 13:4-7"]
  /\ (forall m words suffix,
        Str.split m = words ++ [suffix] -> words <> [] ->
        norm_ref m = Str.join " " ((cap_word <$> words) ++ [suffix])).
Proof.
  intros Hflag. split; [| exact norm_ref_split].
  unfold detect, extract_tokens_and_references. rewrite Hflag. cbn [snd].
  vm_compute. reflexivity.
Qed.

Lemma reference_detector_witness :
  detect "See John 3:16 and 1 Corinthians 13:4-7." default_config
  = ["John 3:16"; "1 Corinthians 13:4-7"]
  /\ norm_ref "1 corinthians   13:4-7" = "1 Corinthians 13:4-7".
Proof.
  destruct (reference_detector default_config eq_refl) as [Hdetect Hnorm].
  split; [exact Hdetect |].
  apply (Hnorm "1 corinthians   13:4-7" ["1"; "corinthians"] "13:4-7");
    [reflexivity | discriminate].
Defined.

(** ** Tokenizer *)

Lemma all_lstrip_by p q s : Str.all p s = true -> Str.all p (Str.lstrip_by q s) = true.
Proof.
  induction s as [| c s IH]; [reflexivity |]. intros H. simpl.
  destruct (q c); [| exact H].
  simpl in H. apply andb_true_iff in H as [_ H]. by apply IH.
Qed.

Lemma all_strip_by p q s : Str.all p s = true -> Str.all p (Str.strip_by q s) = true.
Proof.
  intros H. unfold Str.strip_by, Str.rstrip_by.
  rewrite all_rev. apply all_lstrip_by. rewrite all_rev. by apply all_lstrip_by.
Qed.

(** A match of [[a-z]+'?[a-z]*] starts with a lowercase letter. *)
Lemma fullmatch_WORD_head t :
  Re.fullmatch WORD t = true ->
  exists c u, t = String c u /\ Char.is_lower c = true.
Proof.
  destruct t as [| c u]; [discriminate |].
  destruct (Char.is_lower c) eqn:E; [by eauto |].
  unfold Re.fullmatch, WORD, Re.Plus, Re.start. simpl. rewrite E. discriminate.
Qed.

Lemma clean_token_Some sw ks ml x t :
  clean_token sw ks ml x = Some t -> Re.fullmatch WORD t = true.
Proof.
  unfold clean_token. intros H.
  repeat match type of H with
         | (if ?b then _ else _) = _ => destruct b eqn:?; [discriminate H |]
         end.
  injection H as <-. by apply negb_false_iff.
Qed.

Lemma tokenize_text_example :
  tokenize_text "love123joy" (stopwords default_config) (keep_short default_config) 3
  = ["love"; "joy"].
Proof. vm_compute. reflexivity. Qed.

(** C9: with the default stopwords, the default allowlist and minimum
    length 3, "love123joy" is split at the letter-digit boundaries and gives
    exactly the tokens "love" and "joy"; in general the cleaning loop skips
    every candidate made of digits only, and no token of the output of
    [tokenize_text] consists of digits only. *)
Theorem tokenizer_drops_digits :
  tokenize_text "love123joy" (stopwords default_config)
                (keep_short default_config) (min_token_length default_config)
  = ["love"; "joy"]
  /\ (forall sw ks ml candidate,
        Str.all Char.is_digit candidate = true ->
        clean_token sw ks ml candidate = None)
  /\ (forall body sw ks ml token,
        token ∈ tokenize_text body sw ks ml ->
        Str.all Char.is_digit token = false).
Proof.
  split; [vm_compute; reflexivity | split].
  - intros sw ks ml candidate Hd. unfold clean_token.
    pose proof (all_strip_by _ (one_of "-'") _ Hd) as Hs.
    destruct (Str.strip_by (one_of "-'") candidate) as [| c u] eqn:E; [reflexivity |].
    simpl Str.is_empty. cbv iota.
    destruct (bool_decide _); [reflexivity |].
    destruct (Re.fullmatch WORD (String c u)) eqn:Hm; [| reflexivity].
    apply fullmatch_WORD_head in Hm as (c' & u' & [= <- <-] & Hl).
    simpl in Hs. apply andb_true_iff in Hs as [Hs _].
    apply CharFacts.lower_not_digit in Hl. congruence.
  - intros body sw ks ml token Hin. unfold tokenize_text in Hin.
    apply list_elem_of_omap in Hin as (x & _ & Hx).
    apply clean_token_Some, fullmatch_WORD_head in Hx as (c & u & -> & Hl).
    simpl. by rewrite (CharFacts.lower_not_digit _ Hl).
Qed.

Lemma tokenizer_drops_digits_witness :
  Str.all Char.is_digit "love" = false.
Proof.
  apply (proj2 (proj2 tokenizer_drops_digits) "love123joy"
           (stopwords default_config) (keep_short default_config) 3 "love").
  rewrite tokenize_text_example. apply elem_of_cons. by left.
Defined.

(** ** Stopwords *)

Lemma elem_of_foldl_union (f : string -> gset string) (l : list string)
  (init : gset string) (x : string) :
  x ∈ foldl (fun acc name => acc ∪ f name) init l
  <-> x ∈ init \/ exists name, name ∈ l /\ x ∈ f name.
Proof.
  revert init. induction l as [| n l IH]; intros init; simpl.
  - split; [by left | intros [H | (n & Hn & _)]; [exact H | by inversion Hn]].
  - rewrite IH, elem_of_union. split.
    + intros [[H | H] | (m & Hm & Hx)]; [by left | right | right].
      * exists n. split; [apply elem_of_cons; by left | exact H].
      * exists m. split; [apply elem_of_cons; by right | exact Hx].
    + intros [H | (m & Hm & Hx)]; [by left; left |].
      apply elem_of_cons in Hm as [-> | Hm]; [by left; right |].
      right. by exists m.
Qed.

Lemma elem_of_stripped_lowered (ws : gset string) (x : string) :
  x ∈ stripped_lowered ws
  <-> exists w, w ∈ ws /\ Str.strip w <> EmptyString /\ x = Str.lower (Str.strip w).
Proof.
  unfold stripped_lowered. rewrite elem_of_map. split.
  - intros (w & -> & Hw). apply elem_of_filter in Hw as [Hne Hw]. by exists w.
  - intros (w & Hw & Hne & ->). exists w. split; [reflexivity |].
    by apply elem_of_filter.
Qed.

(** The effective stopword set: the words of the enabled groups and the
    extra words, minus the removed ones. *)
Lemma elem_of_stopwords cfg x :
  x ∈ stopwords cfg
  <-> ((exists name, name ∈ enabled_stop_groups cfg /\ x ∈ stop_group name)
       \/ x ∈ stripped_lowered (extra_stopwords cfg))
      /\ x ∉ stripped_lowered (remove_stopwords cfg).
Proof.
  unfold stopwords. rewrite elem_of_difference, elem_of_union, elem_of_foldl_union.
  split.
  - intros [[[H | (n & Hn & Hx)] | H] Hr]; [by apply not_elem_of_empty in H | |];
      (split; [| exact Hr]); [left | by right].
    exists n. split; [by apply elem_of_elements | exact Hx].
  - intros [[(n & Hn & Hx) | H] Hr]; (split; [| exact Hr]); [left | by right].
    right. exists n. split; [by apply elem_of_elements | exact Hx].
Qed.






(** ** Weight engine *)

Section Counting.

Implicit Types (c : gmap string Z) (k x : string) (xs : list string) (n : Z).

Lemma occurrences_nil k : occurrences k [] = 0.
Proof. reflexivity. Qed.

Lemma occurrences_cons k x xs :
  occurrences k (x :: xs) = (if decide (x = k) then 1 else 0) + occurrences k xs.
Proof.
  unfold occurrences. rewrite filter_cons.
  destruct (decide (x = k)); simpl length; lia.
Qed.

Lemma occurrences_nonneg k xs : 0 <= occurrences k xs.
Proof. unfold occurrences. lia. Qed.

Lemma occurrences_pos k xs : 0 < occurrences k xs <-> k ∈ xs.
Proof.
  induction xs as [| x xs IH].
  - rewrite occurrences_nil, elem_of_nil. lia.
  - rewrite occurrences_cons, elem_of_cons.
    pose proof (occurrences_nonneg k xs).
    destruct (decide (x = k)) as [-> | Hne].
    + split; [by left | lia].
    + rewrite Z.add_0_l, IH. split; [by right | intros [-> | H']; [done | exact H']].
Qed.

Lemma occurrences_filter (P : string -> Prop) `{!forall x, Decision (P x)} k xs :
  occurrences k (filter P xs) = if decide (P k) then occurrences k xs else 0.
Proof.
  induction xs as [| x xs IH].
  - by destruct (decide (P k)).
  - rewrite filter_cons. destruct (decide (P x)) as [Hx | Hx].
    + rewrite !occurrences_cons, IH.
      destruct (decide (P k)); [reflexivity |].
      destruct (decide (x = k)) as [-> | _]; [done | reflexivity].
    + rewrite IH, occurrences_cons.
      destruct (decide (P k)) as [Hk | _]; [| reflexivity].
      destruct (decide (x = k)) as [-> | _]; [done | lia].
Qed.

Lemma get0_bump n c x k :
  get0 (bump n c x) k = if decide (x = k) then get0 c k + n else get0 c k.
Proof.
  unfold bump, get0 at 1. destruct (decide (x = k)) as [-> | Hne].
  - by rewrite lookup_insert_eq.
  - by rewrite lookup_insert_ne.
Qed.

Lemma dom_bump n c x : dom (bump n c x) = {[x]} ∪ dom c.
Proof. unfold bump. apply dom_insert_L. Qed.

Lemma get0_foldl_bump n xs c k :
  get0 (foldl (bump n) c xs) k = get0 c k + n * occurrences k xs.
Proof.
  revert c. induction xs as [| x xs IH]; intros c; simpl foldl.
  - rewrite occurrences_nil. lia.
  - rewrite IH, get0_bump, occurrences_cons. destruct (decide (x = k)); lia.
Qed.

Lemma dom_foldl_bump n xs c :
  dom (foldl (bump n) c xs) = dom c ∪ list_to_set xs.
Proof.
  revert c. induction xs as [| x xs IH]; intros c; simpl foldl.
  - by rewrite list_to_set_nil, (right_id_L ∅ (∪)).
  - by rewrite IH, dom_bump, list_to_set_cons, (comm_L (∪) {[x]}),
      <- (assoc_L (∪)).
Qed.

Lemma get0_empty k : get0 ∅ k = 0.
Proof. unfold get0. by rewrite lookup_empty. Qed.

Lemma get0_Counter xs k : get0 (Counter xs) k = occurrences k xs.
Proof. unfold Counter. rewrite get0_foldl_bump, get0_empty. lia. Qed.

Lemma dom_Counter xs : dom (Counter xs) = list_to_set xs.
Proof.
  unfold Counter. by rewrite dom_foldl_bump, dom_empty_L, (left_id_L ∅ (∪)).
Qed.

(** The loop over the bigrams bumps both dictionaries for the phrases of
    the boost map and for no other. *)
Lemma foldl_count_bigram (boost_map : gmap string Float.t) ps b c :
  foldl (count_bigram boost_map) (b, c) ps
  = (foldl (bump 1) b (filter (fun p => p ∈ dom boost_map) ps),
     foldl (bump 1) c (filter (fun p => p ∈ dom boost_map) ps)).
Proof.
  revert b c. induction ps as [| p ps IH]; intros b c; [reflexivity |].
  simpl foldl. rewrite filter_cons. unfold count_bigram at 2.
  destruct (decide (p ∈ dom boost_map)) as [Hp | Hp].
  - rewrite (bool_decide_eq_true_2 _ Hp). simpl. apply IH.
  - rewrite (bool_decide_eq_false_2 _ Hp). apply IH.
Qed.

End Counting.

(** The boosted bigrams of a token sequence. *)
Lemma accumulate_eq tokens references (boost_map : gmap string Float.t) rw :
  let boosted := filter (fun p => p ∈ dom boost_map) (bigram_phrases tokens) in
  accumulate tokens references boost_map rw
  = (foldl (bump 1) (foldl (bump rw) (Counter tokens) references) boosted,
     foldl (bump rw) ∅ references,
     foldl (bump 1) ∅ boosted).
Proof. unfold accumulate. by rewrite foldl_count_bigram. Qed.

Lemma get0_running_counts tokens references (boost_map : gmap string Float.t) rw k :
  get0 (running_counts tokens references boost_map rw) k
  = occurrences k tokens + rw * occurrences k references
    + (if decide (k ∈ dom boost_map)
       then occurrences k (bigram_phrases tokens) else 0).
Proof.
  unfold running_counts. rewrite accumulate_eq. simpl fst.
  rewrite !get0_foldl_bump, get0_Counter,
    (occurrences_filter (fun p => p ∈ dom boost_map)).
  destruct (decide (k ∈ dom boost_map)); lia.
Qed.

Lemma dom_running_counts tokens references (boost_map : gmap string Float.t) rw :
  dom (running_counts tokens references boost_map rw)
  = list_to_set tokens ∪ list_to_set references
    ∪ list_to_set (filter (fun p => p ∈ dom boost_map) (bigram_phrases tokens)).
Proof.
  unfold running_counts. rewrite accumulate_eq. simpl fst.
  by rewrite !dom_foldl_bump, dom_Counter.
Qed.

Section KeyLoop.

Variables (boost_map manual_adjustments : gmap string Float.t).
Variables (base_counts reference_bonus bigrams : gmap string Z).

Let weigh := weigh_key boost_map manual_adjustments base_counts reference_bonus bigrams.
Let step := weigh_step boost_map manual_adjustments base_counts reference_bonus bigrams.

(** The body of the loop reads [final_counts] at its own key only. *)
Lemma weigh_key_ext (fc fc' : gmap string Z) k :
  fc' !! k = fc !! k -> weigh fc' k = weigh fc k.
Proof.
  intros H. unfold weigh, weigh_key, get0. by rewrite H.
Qed.

(** The loop over the keys visits each key once, so that each entry is
    computed from the counts as they were before the loop. *)
Lemma foldM_weigh_step ks :
  NoDup ks ->
  forall fc st fc' st',
  foldM step (fc, st) ks = Some (fc', st') ->
  (forall k, k ∉ ks -> fc' !! k = fc !! k /\ st' !! k = st !! k)
  /\ (forall k, k ∈ ks ->
        exists stat, weigh fc k = Some stat
                     /\ st' !! k = Some stat
                     /\ fc' !! k = Some (final_count stat)).
Proof.
  induction 1 as [| k0 ks Hk0 Hnd IH]; intros fc st fc' st' Hrun.
  - injection Hrun as <- <-. split; [done |].
    intros k Hk. by apply elem_of_nil in Hk.
  - simpl in Hrun. unfold step at 1, weigh_step in Hrun. simpl in Hrun.
    fold weigh in Hrun.
    destruct (weigh fc k0) as [stat0 |] eqn:E0; [| discriminate Hrun].
    simpl in Hrun. fold step in Hrun.
    destruct (IH _ _ _ _ Hrun) as [Hout Hin]. split.
    + intros k Hk. apply not_elem_of_cons in Hk as [Hne Hk].
      destruct (Hout k Hk) as [-> ->].
      by rewrite !lookup_insert_ne.
    + intros k Hk. apply elem_of_cons in Hk as [-> | Hk].
      * exists stat0. destruct (Hout k0 Hk0) as [-> ->].
        by rewrite !lookup_insert_eq.
      * destruct (Hin k Hk) as (stat & Hw & Hst & Hfc).
        exists stat. split; [| done].
        rewrite <- Hw. symmetry. apply weigh_key_ext.
        apply lookup_insert_ne. intros ->. contradiction.
Qed.

End KeyLoop.

(** What [compute_word_weights] returns, key by key: the keys are those of
    the running counts and of the manual adjustments, and the entry of a
    key is the result of the loop body on the running counts. *)
Lemma compute_word_weights_spec tokens references boost_map rw manual weights stats :
  compute_word_weights tokens references boost_map rw manual = Some (weights, stats) ->
  let counts := running_counts tokens references boost_map rw in
  let manual_adjustments := default ∅ manual in
  let all_keys := dom counts ∪ dom manual_adjustments in
  dom weights = all_keys
  /\ dom stats = all_keys
  /\ forall k, k ∈ all_keys ->
       exists stat,
         weigh_key boost_map manual_adjustments (Counter tokens)
           (foldl (bump rw) ∅ references)
           (foldl (bump 1) ∅
              (filter (fun p => p ∈ dom boost_map) (bigram_phrases tokens)))
           counts k = Some stat
         /\ stats !! k = Some stat
         /\ weights !! k = Some (final_count stat).
Proof.
  intros Hrun counts manual_adjustments all_keys.
  unfold compute_word_weights in Hrun.
  pose proof (accumulate_eq tokens references boost_map rw) as Hacc.
  simpl in Hacc.
  assert (Hcounts : counts = foldl (bump 1) (foldl (bump rw) (Counter tokens) references)
            (filter (fun p => p ∈ dom boost_map) (bigram_phrases tokens))).
  { unfold counts, running_counts. by rewrite Hacc. }
  rewrite Hacc in Hrun. rewrite <- Hcounts in Hrun.
  fold manual_adjustments in Hrun. fold all_keys in Hrun.
  apply foldM_weigh_step in Hrun as [Hout Hin]; [| apply NoDup_elements].
  assert (Hkeys : forall k, k ∈ all_keys ->
            exists stat, stats !! k = Some stat /\ weights !! k = Some (final_count stat)).
  { intros k Hk. apply elem_of_elements in Hk.
    destruct (Hin k Hk) as (stat & _ & ? & ?). by exists stat. }
  assert (Hnone : forall k, k ∉ all_keys -> stats !! k = None /\ weights !! k = None).
  { intros k Hk. assert (Hk' : k ∉ elements all_keys) by by rewrite elem_of_elements.
    destruct (Hout k Hk') as [-> ->]. split; [apply lookup_empty |].
    apply not_elem_of_dom. intros Hd. apply Hk, elem_of_union. by left. }
  split; [| split].
  - apply set_eq. intros k. rewrite elem_of_dom. split.
    + intros [v Hv]. destruct (decide (k ∈ all_keys)) as [| Hk]; [done |].
      destruct (Hnone k Hk) as [_ E]. congruence.
    + intros Hk. destruct (Hkeys k Hk) as (stat & _ & ->). by eexists.
  - apply set_eq. intros k. rewrite elem_of_dom. split.
    + intros [v Hv]. destruct (decide (k ∈ all_keys)) as [| Hk]; [done |].
      destruct (Hnone k Hk) as [E _]. congruence.
    + intros Hk. destruct (Hkeys k Hk) as (stat & -> & _). by eexists.
  - intros k Hk. apply elem_of_elements in Hk. exact (Hin k Hk).
Qed.

(** The stat record built by the loop body. *)
Lemma weigh_key_Some boost_map manual_adjustments base_counts ref_bonus
  bigrams final_counts k stat :
  weigh_key boost_map manual_adjustments base_counts ref_bonus bigrams
            final_counts k = Some stat ->
  key stat = k
  /\ base_count stat = get0 base_counts k
  /\ reference_bonus stat = get0 ref_bonus k
  /\ bigram_count stat = get0 bigrams k
  /\ boost_multiplier stat = default Float.one (boost_map !! Str.lower k)
  /\ manual_adjustment stat = manual_lookup manual_adjustments k (Str.lower k)
  /\ exists boosted,
       apply_boost (get0 final_counts k) (boost_multiplier stat) = Some boosted
       /\ apply_manual boosted (manual_adjustment stat) = Some (final_count stat).
Proof.
  unfold weigh_key. intros H.
  destruct (apply_boost _ _) as [boosted |] eqn:Eb; [| discriminate H].
  simpl in H.
  destruct (apply_manual _ _) as [final |] eqn:Em; [| discriminate H].
  injection H as <-. simpl. repeat (split; [reflexivity |]).
  by exists boosted.
Qed.

(** [round_half_even m d] is an integer nearest to [m / d], the even one
    when two are equally near. *)
Lemma round_half_even_nearest m d :
  0 < d ->
  let n := Float.round_half_even m d in
  2 * Z.abs (m - n * d) <= d
  /\ (2 * Z.abs (m - n * d) = d -> Z.even n = true).
Proof.
  intros Hd n. subst n. unfold Float.round_half_even.
  pose proof (Z.div_mod m d ltac:(lia)) as Hdm.
  pose proof (Z.mod_pos_bound m d Hd) as Hr.
  destruct (Z.compare_spec (2 * (m mod d)) d) as [E | Hlt | Hgt].
  - destruct (Z.even (m / d)) eqn:Ev.
    + split; [nia | intros _; exact Ev].
    + split; [nia |]. intros _. rewrite Z.even_add, Ev. reflexivity.
  - split; [nia | nia].
  - split; [nia | nia].
Qed.

Lemma length_filter_fmap {A B} (f : A -> B) (P : B -> Prop)
  `{!forall x, Decision (P x)} (l : list A) :
  length (filter P (f <$> l)) = length (filter (fun x => P (f x)) l).
Proof.
  induction l as [| x l IH]; [reflexivity |].
  rewrite fmap_cons, !filter_cons.
  destruct (decide (P (f x))); simpl; by rewrite IH.
Qed.

(** Counting the adjacent pairs position by position. *)
Lemma adjacent_bigrams_cons k a tokens :
  adjacent_bigrams k (a :: tokens)
  = (match tokens with
     | b :: _ => if decide (a +:+ " " +:+ b = k) then 1 else 0
     | [] => 0
     end) + adjacent_bigrams k tokens.
Proof.
  unfold adjacent_bigrams. cbn [length seq].
  assert (Htail : length (filter (fun i => bigram_at k (a :: tokens) i = true)
                                 (seq 1 (length tokens)))
                  = length (filter (fun i => bigram_at k tokens i = true)
                                   (seq 0 (length tokens)))).
  { rewrite <- fmap_S_seq, length_filter_fmap. reflexivity. }
  rewrite filter_cons.
  destruct (decide (bigram_at k (a :: tokens) 0%nat = true)) as [H | H];
    cbn [length]; rewrite Htail; destruct tokens as [| b tokens];
    try discriminate H.
  - change (bool_decide (a +:+ " " +:+ b = k) = true) in H.
    apply bool_decide_eq_true in H.
    destruct (decide (a +:+ " " +:+ b = k)); [lia | done].
  - reflexivity.
  - change (bool_decide (a +:+ " " +:+ b = k) <> true) in H.
    destruct (decide (a +:+ " " +:+ b = k)) as [E | _]; [| lia].
    destruct H. by apply bool_decide_eq_true.
Qed.

(** The phrases that the loop over [zip(tokens, tokens[1:])] visits are
    the adjacent pairs of the token sequence, each counted at its
    position. *)
Lemma occurrences_bigram_phrases k tokens :
  occurrences k (bigram_phrases tokens) = adjacent_bigrams k tokens.
Proof.
  induction tokens as [| a tokens IH]; [reflexivity |].
  rewrite adjacent_bigrams_cons, <- IH.
  destruct tokens as [| b tokens]; [reflexivity |].
  change (bigram_phrases (a :: b :: tokens))
    with ((a +:+ " " +:+ b) :: bigram_phrases (b :: tokens)).
  apply occurrences_cons.
Qed.

Lemma boosted_bigram_pos (boost_map : gmap string Float.t) tokens k :
  k ∈ filter (fun p => p ∈ dom boost_map) (bigram_phrases tokens)
  <-> 0 < (if decide (k ∈ dom boost_map) then adjacent_bigrams k tokens else 0).
Proof.
  rewrite list_elem_of_filter, <- occurrences_pos, occurrences_bigram_phrases.
  destruct (decide (k ∈ dom boost_map)) as [Hk | Hk]; [tauto |].
  split; [tauto | lia].
Qed.

(** C2: the running count of a key when the loop over the keys starts is
    its frequency among the tokens, plus the reference weight for each of
    its occurrences among the references, plus, for a key of the boost map,
    the number of positions at which two consecutive tokens, joined by one
    space, make the key; the references take no part in the bigrams, and a
    key touched by none of the three has running count zero.  The keys of
    the returned weights and stats are the tokens, the references, the
    boosted bigrams and the keys of the manual adjustments, and the entry
    of each key is computed from its running count. *)
Theorem running_count_and_keys tokens references boost_map rw manual :
  let counts := running_counts tokens references boost_map rw in
  let bigrams k :=
    if decide (k ∈ dom boost_map) then adjacent_bigrams k tokens else 0 in
  let touched k := k ∈ tokens \/ k ∈ references \/ 0 < bigrams k in
  (forall k,
     get0 counts k
     = occurrences k tokens + rw * occurrences k references + bigrams k)
  /\ (forall k, ~ touched k -> get0 counts k = 0)
  /\ (forall weights stats,
        compute_word_weights tokens references boost_map rw manual
        = Some (weights, stats) ->
        (forall k, k ∈ dom weights <-> touched k \/ k ∈ dom (default ∅ manual))
        /\ (forall k, k ∈ dom stats <-> touched k \/ k ∈ dom (default ∅ manual))
        /\ forall k, touched k \/ k ∈ dom (default ∅ manual) ->
             exists stat boosted,
               stats !! k = Some stat
               /\ weights !! k = Some (final_count stat)
               /\ base_count stat = occurrences k tokens
               /\ reference_bonus stat = rw * occurrences k references
               /\ bigram_count stat = bigrams k
               /\ apply_boost (get0 counts k) (boost_multiplier stat) = Some boosted
               /\ apply_manual boosted (manual_adjustment stat)
                  = Some (final_count stat)).
Proof.
  intros counts bigrams touched.
  assert (Hdom : forall k, k ∈ dom counts <-> touched k).
  { intros k. unfold counts. rewrite dom_running_counts, !elem_of_union,
      !elem_of_list_to_set, boosted_bigram_pos. unfold touched, bigrams. tauto. }
  assert (Hkeys' : forall k,
            k ∈ dom counts ∪ dom (default ∅ manual)
            <-> touched k \/ k ∈ dom (default ∅ manual)).
  { intros k. by rewrite elem_of_union, Hdom. }
  split; [| split].
  - intros k. unfold counts, bigrams. rewrite get0_running_counts.
    by rewrite occurrences_bigram_phrases.
  - intros k Hk. unfold get0.
    rewrite (proj1 (not_elem_of_dom counts k)); [reflexivity | by rewrite Hdom].
  - intros weights stats Hrun.
    destruct (compute_word_weights_spec _ _ _ _ _ _ _ Hrun) as (Hw & Hs & Hkeys).
    fold counts in Hw, Hs, Hkeys.
    split; [intros k; by rewrite Hw | split; [intros k; by rewrite Hs |]].
    intros k Hk. apply Hkeys' in Hk.
    destruct (Hkeys k Hk) as (stat & Hstat & Hsk & Hwk).
    apply weigh_key_Some in Hstat
      as (_ & Hbase & Href & Hbig & _ & _ & boosted & Hboost & Hman).
    exists stat, boosted.
    split; [exact Hsk |]. split; [exact Hwk |].
    split; [rewrite Hbase; apply get0_Counter |].
    split; [rewrite Href, get0_foldl_bump, get0_empty; lia |].
    split; [| split; assumption].
    unfold bigrams.
    rewrite Hbig, get0_foldl_bump, get0_empty,
      (occurrences_filter (fun p => p ∈ dom boost_map)),
      occurrences_bigram_phrases.
    destruct (decide (k ∈ dom boost_map)); lia.
Qed.

Lemma running_count_and_keys_witness :
  match compute_word_weights ["pastoral"; "care"; "grace"] ["John 3:16"] BOOST_MAP 4
          (Some {["Hope" := Float.dec 25 1]}) with
  | Some (weights, stats) =>
      "pastoral care" ∈ dom weights
      /\ "Hope" ∈ dom weights
      /\ get0 (running_counts ["pastoral"; "care"; "grace"] ["John 3:16"]
                 BOOST_MAP 4) "pastoral care" = 1
  | None => False
  end.
Proof.
  destruct (compute_word_weights ["pastoral"; "care"; "grace"] ["John 3:16"]
              BOOST_MAP 4 (Some {["Hope" := Float.dec 25 1]}))
    as [[weights stats] |] eqn:E.
  - destruct (running_count_and_keys ["pastoral"; "care"; "grace"] ["John 3:16"]
                BOOST_MAP 4 (Some {["Hope" := Float.dec 25 1]}))
      as (Hcount & _ & Hkeys).
    destruct (Hkeys weights stats E) as (Hw & _ & _).
    split; [| split].
    + apply Hw. left. right. right. vm_compute. reflexivity.
    + apply Hw. right. apply elem_of_dom. eexists. apply lookup_singleton_eq.
    + rewrite Hcount. vm_compute. reflexivity.
  - assert (H : returned (compute_word_weights ["pastoral"; "care"; "grace"]
                  ["John 3:16"] BOOST_MAP 4 (Some {["Hope" := Float.dec 25 1]})) = true)
      by (vm_compute; reflexivity).
    rewrite E in H. discriminate H.
Defined.

(** The entry of a key of the returned stats, read off the loop body. *)
Lemma stats_entry tokens references boost_map rw manual weights stats k stat :
  compute_word_weights tokens references boost_map rw manual = Some (weights, stats) ->
  stats !! k = Some stat ->
  weights !! k = Some (final_count stat)
  /\ boost_multiplier stat = default Float.one (boost_map !! Str.lower k)
  /\ manual_adjustment stat = manual_lookup (default ∅ manual) k (Str.lower k)
  /\ exists boosted,
       apply_boost (get0 (running_counts tokens references boost_map rw) k)
                   (boost_multiplier stat) = Some boosted
       /\ apply_manual boosted (manual_adjustment stat) = Some (final_count stat).
Proof.
  intros Hrun Hk.
  destruct (compute_word_weights_spec _ _ _ _ _ _ _ Hrun) as (_ & Hs & Hkeys).
  assert (Hin : k ∈ dom stats) by (apply elem_of_dom; by eexists).
  rewrite Hs in Hin. destruct (Hkeys k Hin) as (stat' & Hw & Hst & Hfc).
  assert (stat' = stat) as -> by congruence.
  apply weigh_key_Some in Hw as (_ & _ & _ & _ & Hb & Hm & Hex).
  by repeat (split; [assumption |]).
Qed.

(** C4: the boost multiplier of a key is the entry of the boost map at the
    lowercased key, 1.0 when there is none; the running count is multiplied
    by it and rounded exactly when it differs from 1.0, and [round] takes
    the nearest integer, the even one of two equally near.  Two tokens
    "grace" with the boost map {"grace": 2.0} give the final count 4,
    whatever the reference weight. *)
Theorem boost_application :
  (forall tokens references boost_map rw manual weights stats k stat,
     compute_word_weights tokens references boost_map rw manual
     = Some (weights, stats) ->
     stats !! k = Some stat ->
     let running := get0 (running_counts tokens references boost_map rw) k in
     boost_multiplier stat = default Float.one (boost_map !! Str.lower k)
     /\ exists boosted,
          (if Float.eqb (boost_multiplier stat) Float.one
           then boosted = running
           else exists f, Float.of_int running = Some f
                          /\ Float.round (Float.mul f (boost_multiplier stat))
                             = Some boosted)
          /\ apply_manual boosted (manual_adjustment stat)
             = Some (final_count stat))
  /\ (forall s m e n,
        Float.round (S754_finite s m e) = Some n ->
        let v := if s then - Z.pos m else Z.pos m in
        if 0 <=? e then n = v * 2 ^ e
        else 2 * Z.abs (v - n * 2 ^ (- e)) <= 2 ^ (- e)
             /\ (2 * Z.abs (v - n * 2 ^ (- e)) = 2 ^ (- e) -> Z.even n = true))
  /\ (forall rw,
        let run := compute_word_weights ["grace"; "grace"] []
                     {["grace" := Float.dec 20 1]} rw None in
        final_count_of run "grace" = Some 4 /\ weight_of run "grace" = Some 4).
Proof.
  split; [| split].
  - intros tokens references boost_map rw manual weights stats k stat Hrun Hk running.
    destruct (stats_entry _ _ _ _ _ _ _ _ _ Hrun Hk)
      as (_ & Hb & _ & boosted & Hboost & Hman).
    split; [exact Hb |]. exists boosted. split; [| exact Hman].
    fold running in Hboost. unfold apply_boost in Hboost.
    destruct (Float.eqb (boost_multiplier stat) Float.one); simpl in Hboost.
    + congruence.
    + destruct (Float.of_int running) as [f |]; [| discriminate Hboost].
      by exists f.
  - intros s m e n Hround v. simpl in Hround.
    destruct (0 <=? e) eqn:He.
    + injection Hround as <-. subst v. destruct s; lia.
    + apply Z.leb_gt in He.
      assert (Hd : 0 < 2 ^ (- e)) by (apply Z.pow_pos_nonneg; lia).
      destruct (round_half_even_nearest (Z.pos m) (2 ^ (- e)) Hd) as [Hnear Heven].
      injection Hround as <-. subst v. destruct s.
      * rewrite Z.even_opp. split; [lia |]. intros H. apply Heven. lia.
      * split; [exact Hnear | exact Heven].
  - intros rw run. subst run. split; vm_compute; reflexivity.
Qed.

Lemma boost_application_witness :
  match compute_word_weights ["mercy"; "mercy"; "mercy"] [] BOOST_MAP 4 None with
  | Some (weights, stats) =>
      match stats !! "mercy" with
      | Some stat =>
          boost_multiplier stat = default Float.one (BOOST_MAP !! Str.lower "mercy")
      | None => False
      end
  | None => False
  end.
Proof.
  destruct (compute_word_weights ["mercy"; "mercy"; "mercy"] [] BOOST_MAP 4 None)
    as [[weights stats] |] eqn:E.
  - destruct (stats !! "mercy") as [stat |] eqn:Es.
    + exact (proj1 (proj1 boost_application _ _ _ _ _ _ _ _ _ E Es)).
    + assert (H : final_count_of
                    (compute_word_weights ["mercy"; "mercy"; "mercy"] [] BOOST_MAP 4 None)
                    "mercy" = Some 6) by (vm_compute; reflexivity).
      rewrite E in H. unfold final_count_of in H. simpl in H. rewrite Es in H.
      discriminate H.
  - assert (H : returned (compute_word_weights ["mercy"; "mercy"; "mercy"] []
                            BOOST_MAP 4 None) = true) by (vm_compute; reflexivity).
    rewrite E in H. discriminate H.
Defined.

(** C3: the manual adjustment of a key is the entry of the mapping at the
    key itself, else at the lowercased key, else 0.0; when it is not zero
    it is added to the boosted count, the sum is rounded and the result is
    floored at zero, so that the final count is not negative.  A key with
    running count 1, multiplier 1.0 and adjustment -10.0 ends at 0. *)
Theorem manual_adjustment_floor :
  (forall tokens references boost_map rw manual weights stats k stat,
     compute_word_weights tokens references boost_map rw manual
     = Some (weights, stats) ->
     stats !! k = Some stat ->
     let m := default ∅ manual in
     let running := get0 (running_counts tokens references boost_map rw) k in
     manual_adjustment stat
     = match m !! k with
       | Some a => a
       | None => match m !! Str.lower k with
                 | Some a => a
                 | None => Float.zero
                 end
       end
     /\ (exists boosted,
           apply_boost running (boost_multiplier stat) = Some boosted
           /\ if Float.truthy (manual_adjustment stat)
              then exists f z,
                     Float.of_int boosted = Some f
                     /\ Float.round (Float.add f (manual_adjustment stat)) = Some z
                     /\ final_count stat = Z.max 0 z
              else final_count stat = boosted)
     /\ (Float.truthy (manual_adjustment stat) = true -> 0 <= final_count stat)
     /\ (running = 1 ->
         Float.eqb (boost_multiplier stat) Float.one = true ->
         manual_adjustment stat = Float.of_Z (-10) ->
         final_count stat = 0 /\ weights !! k = Some 0))
  /\ (let run := compute_word_weights ["hope"] [] BOOST_MAP 4
                   (Some {["hope" := Float.of_Z (-10)]}) in
      final_count_of run "hope" = Some 0 /\ weight_of run "hope" = Some 0).
Proof.
  split; [| split; vm_compute; reflexivity].
  intros tokens references boost_map rw manual weights stats k stat Hrun Hk m running.
  destruct (stats_entry _ _ _ _ _ _ _ _ _ Hrun Hk)
    as (Hw & _ & Hm & boosted & Hboost & Hman).
  fold running in Hboost. fold m in Hm.
  assert (Hshape : if Float.truthy (manual_adjustment stat)
            then exists f z,
                   Float.of_int boosted = Some f
                   /\ Float.round (Float.add f (manual_adjustment stat)) = Some z
                   /\ final_count stat = Z.max 0 z
            else final_count stat = boosted).
  { unfold apply_manual in Hman.
    destruct (Float.truthy (manual_adjustment stat)); simpl in Hman; [| congruence].
    destruct (Float.of_int boosted) as [f |]; [| discriminate Hman]. simpl in Hman.
    destruct (Float.round _) as [z |] eqn:Ez; [| discriminate Hman].
    simpl in Hman. injection Hman as Hman. exists f, z. by repeat split. }
  split; [| split; [| split]].
  - rewrite Hm. unfold manual_lookup.
    destruct (m !! k); [reflexivity |]. simpl. by destruct (m !! Str.lower k).
  - by exists boosted.
  - intros Ht. rewrite Ht in Hshape. destruct Hshape as (f & z & _ & _ & ->). lia.
  - intros Hrun1 Hone Hadj.
    unfold apply_boost in Hboost. rewrite Hone, Hrun1 in Hboost.
    injection Hboost as <-.
    assert (Hc : apply_manual 1 (Float.of_Z (-10)) = Some 0)
      by (vm_compute; reflexivity).
    rewrite Hadj, Hc in Hman. injection Hman as Hfc.
    rewrite Hw, <- Hfc. done.
Qed.

Lemma manual_adjustment_floor_witness :
  match compute_word_weights ["hope"] [] BOOST_MAP 4
          (Some {["hope" := Float.of_Z (-10)]}) with
  | Some (weights, stats) =>
      match stats !! "hope" with
      | Some stat => 0 <= final_count stat
      | None => False
      end
  | None => False
  end.
Proof.
  destruct (compute_word_weights ["hope"] [] BOOST_MAP 4
              (Some {["hope" := Float.of_Z (-10)]}))
    as [[weights stats] |] eqn:E.
  - destruct (stats !! "hope") as [stat |] eqn:Es.
    + destruct (proj1 manual_adjustment_floor _ _ _ _ _ _ _ _ _ E Es)
        as (Hadj & _ & Hfloor & _).
      apply Hfloor. rewrite Hadj. vm_compute. reflexivity.
    + assert (H : final_count_of
                    (compute_word_weights ["hope"] [] BOOST_MAP 4
                       (Some {["hope" := Float.of_Z (-10)]})) "hope" = Some 0)
        by (vm_compute; reflexivity).
      rewrite E in H. unfold final_count_of in H. simpl in H. rewrite Es in H.
      discriminate H.
  - assert (H : returned (compute_word_weights ["hope"] [] BOOST_MAP 4
                            (Some {["hope" := Float.of_Z (-10)]})) = true)
      by (vm_compute; reflexivity).
    rewrite E in H. discriminate H.
Defined.

(** ** Size normalizer, step 1 *)

(** C1, as stated, fails: the key "see John 3:16!", which a manual
    adjustment can introduce, survives the filter although it is neither a
    scripture reference as a whole nor made of letters and single spaces;
    the reference check looks for a reference anywhere in the key. *)
Lemma filter_not_whole_string :
  ~ ("see John 3:16!" ∈ (filtered [("see John 3:16!", 5)]).*1
     <-> "see John 3:16!" ∈ [("see John 3:16!", 5)].*1
         /\ (Re.fullmatch REF_REGEX "see John 3:16!" = true
             \/ Re.fullmatch LETTERS "see John 3:16!" = true)).
Proof.
  intros [Hkept _].
  assert (Hin : "see John 3:16!" ∈ (filtered [("see John 3:16!", 5)]).*1).
  { assert (E : filtered [("see John 3:16!", 5)] = [("see John 3:16!", 5)])
      by (vm_compute; reflexivity).
    rewrite E. apply list_elem_of_singleton. reflexivity. }
  destruct (Hkept Hin) as [_ [H | H]]; vm_compute in H; discriminate H.
Qed.

(** The key of the counterexample reaches the normalizer through a manual
    adjustment. *)
Lemma manual_key_reaches_filter :
  weight_of (compute_word_weights [] [] BOOST_MAP 4
               (Some {["see John 3:16!" := Float.of_Z 5]})) "see John 3:16!"
  = Some 5.
Proof. vm_compute. reflexivity. Qed.

Lemma renderable_spec key :
  renderable key = true
  <-> contains_match REF_REGEX key
      \/ exists ws, ws <> [] /\ Forall letters_word ws /\ key = Str.join " " ws.
Proof.
  unfold renderable, is_scripture_ref.
  by rewrite orb_true_iff, MatchFacts.search_spec, MatchFacts.fullmatch_LETTERS.
Qed.

(** A key that is a scripture reference as a whole contains one. *)
Lemma fullmatch_contains r s : Re.fullmatch r s = true -> contains_match r s.
Proof.
  intros H. apply MatchFacts.fullmatch_spec in H as (c' & Hm & He).
  destruct (MatchFacts.Matches_position r "" s c' Hm) as (m & post & -> & ->).
  simpl in He. subst post. by exists "", m, "".
Qed.

(** C1, amended: an entry survives the filter exactly when its key
    contains a scripture reference somewhere, or is, as a whole, made of
    words of letters separated by single spaces. *)
Theorem filter_keeps items key value :
  (key, value) ∈ filtered items
  <-> (key, value) ∈ items
      /\ (contains_match REF_REGEX key
          \/ exists ws, ws <> [] /\ Forall letters_word ws /\ key = Str.join " " ws).
Proof.
  unfold filtered. rewrite list_elem_of_filter. simpl.
  rewrite renderable_spec. tauto.
Qed.

(** ** JSON extraction adapter *)

Lemma primary_strings_default_keys payload cfg :
  collect_all_json_strings cfg = false ->
  json_text_keys cfg = None \/ json_text_keys cfg = Some ∅ ->
  resolved_json_keys cfg = list_to_set (Str.lower <$> DEFAULT_JSON_KEYS)
  /\ primary_strings payload cfg =
     _iter_json_strings payload (list_to_set (Str.lower <$> DEFAULT_JSON_KEYS))
                        false false.
Proof.
  intros Hall Hkeys.
  assert (Hres : resolved_json_keys cfg
                 = list_to_set (Str.lower <$> DEFAULT_JSON_KEYS)).
  { unfold resolved_json_keys. rewrite Hall.
    destruct Hkeys as [-> | ->]; [reflexivity |].
    destruct (decide (∅ = ∅)) as [_ | Hne]; [reflexivity | by destruct Hne]. }
  split; [exact Hres |].
  unfold primary_strings. by rewrite Hres, Hall.
Qed.

Lemma plaintext_is_default_key :
  bool_decide ("plaintext" ∈
    (list_to_set (Str.lower <$> DEFAULT_JSON_KEYS) : gset string)) = true.
Proof. vm_compute. reflexivity. Qed.

(** C6, as stated, fails: on the Ghost export and the default configuration
    the text is produced, but the walk over the payload already collects
    the string and the legacy path is not taken. *)
Lemma ghost_export_not_via_fallback :
  ~ (extract_text_from_json_payload ghost_export default_config = Ok "hello world"
     /\ primary_strings ghost_export default_config = []
     /\ fallback_taken ghost_export default_config = true).
Proof.
  intros (_ & Hprimary & _).
  vm_compute in Hprimary. discriminate Hprimary.
Qed.

(** C6, amended: with no configured JSON keys and collect-all false, the
    Ghost export yields "hello world" through the walk over the payload,
    because "plaintext" is one of the default keys; the legacy path is not
    taken. *)
Theorem ghost_export_text cfg :
  collect_all_json_strings cfg = false ->
  json_text_keys cfg = None \/ json_text_keys cfg = Some ∅ ->
  extract_text_from_json_payload ghost_export cfg = Ok "hello world"
  /\ primary_strings ghost_export cfg = ["hello world"]
  /\ fallback_taken ghost_export cfg = false.
Proof.
  intros Hall Hkeys.
  destruct (primary_strings_default_keys ghost_export cfg Hall Hkeys)
    as [Hres Hprimary].
  assert (Hstrings : primary_strings ghost_export cfg = ["hello world"]).
  { rewrite Hprimary. vm_compute. reflexivity. }
  assert (Hfb : fallback_taken ghost_export cfg = false).
  { unfold fallback_taken. by rewrite Hstrings. }
  split; [| split]; [| exact Hstrings | exact Hfb].
  unfold extract_text_from_json_payload. rewrite Hfb, Hstrings. reflexivity.
Qed.

Lemma ghost_export_text_witness :
  extract_text_from_json_payload ghost_export default_config = Ok "hello world"
  /\ primary_strings ghost_export default_config = ["hello world"]
  /\ fallback_taken ghost_export default_config = false.
Proof.
  apply (ghost_export_text default_config); [reflexivity | left; reflexivity].
Defined.

(** C5: the legacy path on a payload whose "db" is an empty list.  With the
    key selection {"text"} the walk collects nothing and the legacy path is
    taken; [extract_posts] then indexes the empty list and the call raises
    IndexError instead of returning the empty text.  The other kinds of
    missing structure named by the claim do give the empty text. *)
Theorem empty_db_raises :
  let cfg := with_json_text_keys (Some {["text"]}) default_config in
  fallback_taken empty_db cfg = true
  /\ extract_text_from_json_payload empty_db cfg = Raise IndexError
  /\ extract_text_from_json_payload (JDict []) cfg = Ok ""
  /\ extract_text_from_json_payload (JDict [("db", JList [JDict []])]) cfg = Ok ""
  /\ extract_text_from_json_payload
       (JDict [("db", JList [JDict [("data", JDict [])]])]) cfg = Ok "".
Proof. vm_compute. repeat split; reflexivity. Qed.


(** * Further properties of the code *)

(** ** Tokenizer: what the cleaning loop lets through *)

Module TokenFacts.
Import Re StrFacts SplitFacts ReFacts MatchFacts.

(** What the cleaning loop has checked of a token it keeps. *)
Lemma clean_token_inv sw ks ml x t :
  clean_token sw ks ml x = Some t ->
  t = Str.strip_by (one_of "-'") x
  /\ t <> ""
  /\ (t ∉ sw)
  /\ fullmatch WORD t = true
  /\ (ml <= Z.of_nat (String.length t) \/ t ∈ ks).
Proof.
  unfold clean_token. intros H.
  destruct (Str.is_empty (Str.strip_by (one_of "-'") x)) eqn:E1; [discriminate H |].
  destruct (bool_decide (Str.strip_by (one_of "-'") x ∈ sw)) eqn:E2; [discriminate H |].
  destruct (fullmatch WORD (Str.strip_by (one_of "-'") x)) eqn:E3;
    simpl in H; [| discriminate H].
  destruct ((Z.of_nat (String.length (Str.strip_by (one_of "-'") x)) <? ml)
            && negb (bool_decide (Str.strip_by (one_of "-'") x ∈ ks))) eqn:E4;
    [discriminate H |].
  injection H as <-. split; [reflexivity |].
  split; [by destruct (Str.strip_by (one_of "-'") x) |].
  split; [by apply bool_decide_eq_false in E2 |].
  split; [exact E3 |].
  apply andb_false_iff in E4 as [E4 | E4].
  - left. by apply Z.ltb_ge.
  - right. apply negb_false_iff in E4. by apply bool_decide_eq_true in E4.
Qed.

(** [lstrip] removes a prefix made of characters of the set. *)
Lemma lstrip_by_split p s :
  exists a, s = a +:+ Str.lstrip_by p s /\ Str.all p a = true.
Proof.
  induction s as [| c s (a & Ha & Hp)]; [by exists "" |]. simpl.
  destruct (p c) eqn:E.
  - exists (String c a). rewrite app_cons, <- Ha. simpl. by rewrite E, Hp.
  - by exists "".
Qed.

Lemma lstrip_by_head_ok p s : Str.lstrip_by p s <> "" -> head_ok p (Str.lstrip_by p s).
Proof.
  induction s as [| c s IH]; simpl; [done |].
  destruct (p c) eqn:E; [exact IH | intros _; exact E].
Qed.

(** A stripped text, when not empty, begins and ends outside the set. *)
Lemma strip_by_ends p s :
  Str.strip_by p s <> "" ->
  head_ok p (Str.strip_by p s) /\ head_ok p (Str.rev (Str.strip_by p s)).
Proof.
  unfold Str.strip_by, Str.rstrip_by. intros Hne.
  set (v := Str.lstrip_by p s) in *.
  set (u := Str.lstrip_by p (Str.rev v)) in *.
  assert (Hu : u <> "") by (intros E; apply Hne; by rewrite E).
  split; [| rewrite rev_involutive; by apply lstrip_by_head_ok].
  destruct (lstrip_by_split p (Str.rev v)) as (a & Ha & _). fold u in Ha.
  assert (Hv : v = Str.rev u +:+ Str.rev a)
    by (rewrite <- rev_app, <- Ha; symmetry; apply rev_involutive).
  assert (Hvne : v <> "").
  { intros E. rewrite E in Hv. destruct (Str.rev u) eqn:Er; [| discriminate Hv].
    apply rev_empty in Er. contradiction. }
  pose proof (lstrip_by_head_ok p s Hvne) as Hh. fold v in Hh.
  rewrite Hv in Hh. destruct (Str.rev u) as [| c r] eqn:Er.
  - apply rev_empty in Er. contradiction.
  - exact Hh.
Qed.

Lemma opt_quote_inv c c' :
  Matches (Opt (Lit "'")) c c' ->
  after c = after c' \/ after c = "'" +:+ after c'.
Proof.
  intros H. inversion H as [| | | r1 r2 c0 c5 HL | r1 r2 c0 c5 HR | | |]; subst.
  - right. inversion HL as [| | r1 r2 c0 c6 c7 H5 H6 | | | | |]; subst.
    inversion H6; subst.
    inversion H5 as [| p' b x u Hp | | | | | |]; subst. simpl.
    destruct x as [[] [] [] [] [] [] [] []]; vm_compute in Hp;
      first [reflexivity | discriminate Hp].
  - left. by inversion HR; subst.
Qed.

(** The texts matched by [[a-z]+'?[a-z]*]. *)
Lemma fullmatch_WORD_shape t :
  fullmatch WORD t = true ->
  exists w1 q w2,
    t = w1 +:+ q +:+ w2 /\ w1 <> ""
    /\ Str.all Char.is_lower w1 = true /\ Str.all Char.is_lower w2 = true
    /\ (q = "" \/ q = "'").
Proof.
  intros H. apply fullmatch_spec in H as (c' & H & He).
  inversion H as [| | r1 r2 c0 c1 c2 H1 H2 | | | | |]; subst.
  inversion H2 as [| | r1 r2 c0 c3 c4 H3 H4 | | | | |]; subst.
  apply plus_chr_inv in H1 as (w1 & Hne & Hw1 & E1).
  apply star_chr_inv in H4 as (w2 & Hw2 & E2).
  apply opt_quote_inv in H3 as HQ.
  simpl in E1. rewrite He, app_empty_r in E2.
  destruct HQ as [E3 | E3]; rewrite E2 in E3; rewrite E3 in E1.
  - exists w1, "", w2. by repeat split; auto.
  - exists w1, "'", w2. by repeat split; auto.
Qed.

Lemma quote_stripped : one_of "-'" "'" = true.
Proof. reflexivity. Qed.

Lemma lower_not_stripped c : Char.is_lower c = true -> one_of "-'" c = false.
Proof.
  destruct c as [[] [] [] [] [] [] [] []]; intros H; vm_compute in H |- *;
    first [reflexivity | discriminate H].
Qed.

End TokenFacts.

(** X1: no token that [tokenize_text] returns is a member of the stopword
    set it was given, and every token has at least the minimum length or
    belongs to the short-word allowlist. *)
Theorem tokens_pass_filters body sw ks ml token :
  token ∈ tokenize_text body sw ks ml ->
  (token ∉ sw) /\ (ml <= Z.of_nat (String.length token) \/ token ∈ ks).
Proof.
  intros Hin. unfold tokenize_text in Hin.
  apply list_elem_of_omap in Hin as (x & _ & Hx).
  apply TokenFacts.clean_token_inv in Hx as (_ & _ & Hsw & _ & Hlen).
  by split.
Qed.

Lemma tokens_pass_filters_witness :
  ("love" ∉ stopwords default_config)
  /\ (3 <= Z.of_nat (String.length "love") \/ "love" ∈ keep_short default_config).
Proof.
  apply (tokens_pass_filters "love123joy" (stopwords default_config)
           (keep_short default_config) 3 "love").
  rewrite tokenize_text_example. apply elem_of_cons. by left.
Defined.

(** X2: every token that [tokenize_text] returns is a run of lowercase
    letters, or two such runs joined by a single apostrophe: it holds no
    digit, no hyphen, no white space, and it begins and ends with a
    letter. *)
Theorem tokens_are_words body sw ks ml token :
  token ∈ tokenize_text body sw ks ml ->
  exists w1 w2,
    w1 <> "" /\ Str.all Char.is_lower w1 = true /\ Str.all Char.is_lower w2 = true
    /\ (token = w1 /\ w2 = "" \/ token = w1 +:+ "'" +:+ w2 /\ w2 <> "").
Proof.
  intros Hin. unfold tokenize_text in Hin.
  apply list_elem_of_omap in Hin as (x & _ & Hx).
  apply TokenFacts.clean_token_inv in Hx as (Hstrip & Hne & _ & Hword & _).
  apply TokenFacts.fullmatch_WORD_shape in Hword
    as (w1 & q & w2 & Ht & Hw1 & Hl1 & Hl2 & [-> | ->]).
  - exists (w1 +:+ w2), "". rewrite StrFacts.app_nil in Ht.
    split; [by destruct w1 |].
    split; [by rewrite StrFacts.all_app, Hl1, Hl2 |].
    split; [reflexivity |]. by left.
  - exists w1, w2. repeat (split; [assumption |]). right. split; [exact Ht |].
    intros ->. rewrite Hstrip in Hne.
    destruct (TokenFacts.strip_by_ends _ _ Hne) as [_ Hend].
    rewrite <- Hstrip, Ht, StrFacts.app_empty_r, StrFacts.rev_app in Hend.
    simpl in Hend. discriminate Hend.
Qed.

Lemma tokens_are_words_witness :
  exists w1 w2,
    w1 <> "" /\ Str.all Char.is_lower w1 = true /\ Str.all Char.is_lower w2 = true
    /\ ("love" = w1 /\ w2 = "" \/ "love" = w1 +:+ "'" +:+ w2 /\ w2 <> "").
Proof.
  apply (tokens_are_words "love123joy" (stopwords default_config)
           (keep_short default_config) 3 "love").
  rewrite tokenize_text_example. apply elem_of_cons. by left.
Defined.

Module SubFacts.
Import Re StrFacts ReFacts MatchFacts.

(** A substitution leaves alone a text in which the pattern matches
    nowhere. *)
Lemma sub_no_match r repl s :
  (forall a b c', s = a +:+ b -> ~ Matches r (position a b) c') ->
  sub r repl s = s.
Proof.
  intros Hno. unfold sub. simpl.
  destruct (search_from r (remaining (start s)) (start s)) as [[c0 c1] |] eqn:E;
    [| reflexivity].
  exfalso.
  assert (Hsome : search_from r (String.length s) (position "" s) <> None)
    by (unfold start, remaining, position in *; simpl in *; congruence).
  apply search_from_spec in Hsome as (a & b & c' & -> & Hm); [| lia].
  rewrite app_nil in Hm. by apply (Hno a b c').
Qed.

Lemma all_app_r p a b : Str.all p (a +:+ b) = true -> Str.all p b = true.
Proof. rewrite all_app. intros H. by apply andb_true_iff in H as [_ H]. Qed.

Lemma LOWER_UPPER_needs_upper a b c' :
  Matches LOWER_UPPER (position a b) c' ->
  Str.all (fun c => negb (Char.is_upper c)) b = false.
Proof.
  intros H. inversion H as [| | r1 r2 c0 c1 c2 H1 H2 | | | | |]; subst.
  inversion H1 as [| p1 b1 x t Hx | | | | | |]; subst.
  inversion H2 as [| p2 b2 y u Hy | | | | | |]; subst.
  simpl in *. subst. simpl. by rewrite Hy, andb_false_r.
Qed.

End SubFacts.

(** The substitutions of the tokenizer keep a text free of uppercase
    letters, and so do [strip] and [split]. *)

Module AllFacts.
Import Re StrFacts ReFacts MatchFacts.

Section All.

Variable p : ascii -> bool.

Lemma all_substring n m s :
  Str.all p s = true -> Str.all p (String.substring n m s) = true.
Proof.
  revert n m. induction s as [| c s IH]; intros n m H.
  - by destruct n, m.
  - simpl in H. apply andb_true_iff in H as [Hc Hs].
    destruct n as [| n]; [destruct m as [| m]; [reflexivity |] |]; simpl.
    + by rewrite Hc, IH.
    + by apply IH.
Qed.

Lemma all_split_go s : forall cur,
  Str.all p cur = true -> Str.all p s = true ->
  Forall (fun w => Str.all p w = true) (Str.split_go s cur).
Proof.
  induction s as [| c s IH]; intros cur Hcur Hs; simpl.
  - destruct (Str.is_empty cur); constructor; [by rewrite all_rev | constructor].
  - simpl in Hs. apply andb_true_iff in Hs as [Hc Hs].
    destruct (Char.is_space c).
    + destruct (Str.is_empty cur); [by apply IH |].
      constructor; [by rewrite all_rev | by apply IH].
    + apply IH; [simpl; by rewrite Hc | exact Hs].
Qed.

Lemma all_split s :
  Str.all p s = true -> Forall (fun w => Str.all p w = true) (Str.split s).
Proof. by apply all_split_go. Qed.

Lemma all_join sep parts :
  Str.all p sep = true -> Forall (fun w => Str.all p w = true) parts ->
  Str.all p (Str.join sep parts) = true.
Proof.
  intros Hsep. induction 1 as [| w parts Hw Hparts IH]; [reflexivity |].
  destruct parts as [| v parts]; [exact Hw |].
  change (Str.join sep (w :: v :: parts)) with (w +:+ sep +:+ Str.join sep (v :: parts)).
  by rewrite !all_app, Hw, Hsep, IH.
Qed.

(** A search stops inside the text it was given. *)
Lemma search_from_all r n : forall c c0 c1,
  search_from r n c = Some (c0, c1) ->
  Str.all p (after c) = true ->
  Str.all p (after c0) = true /\ Str.all p (after c1) = true.
Proof.
  assert (Hmatch : forall c c', match_at r c = Some c' ->
            Str.all p (after c) = true -> Str.all p (after c') = true).
  { intros c c' E H. unfold match_at in E.
    destruct (run r c) as [| c'' l] eqn:Er; [discriminate E |]. injection E as ->.
    assert (Hm : Matches r c c').
    { apply elem_of_run. rewrite Er. apply elem_of_cons. by left. }
    apply Matches_consumes in Hm as (w & Hw & _). rewrite Hw, all_app in H.
    by apply andb_true_iff in H as [_ H]. }
  induction n as [| n IH]; intros c c0 c1 H Hall; simpl in H;
    destruct (match_at r c) as [c' |] eqn:E.
  - injection H as <- <-. split; [exact Hall | by apply (Hmatch c)].
  - discriminate H.
  - injection H as <- <-. split; [exact Hall | by apply (Hmatch c)].
  - unfold advance in H. destruct (after c) as [| x t] eqn:Ea; [discriminate H |].
    apply (IH _ _ _ H). simpl. simpl in Hall.
    by apply andb_true_iff in Hall as [_ Hall].
Qed.

(** A substitution whose replacements satisfy [p] keeps a text within
    [p]. *)
Lemma sub_from_all r repl n :
  (forall m, Str.all p (repl m) = true) ->
  forall c, Str.all p (after c) = true -> Str.all p (sub_from r repl n c) = true.
Proof.
  intros Hrepl. induction n as [| n IH]; intros c Hall; [exact Hall |]. simpl.
  destruct (search_from r (remaining c) c) as [[c0 c1] |] eqn:E; [| exact Hall].
  destruct (search_from_all _ _ _ _ _ E Hall) as [H0 H1].
  rewrite !all_app, Hrepl. unfold between. rewrite (all_substring _ _ _ Hall).
  simpl. destruct (remaining c1 <? remaining c0)%nat; [by apply IH |].
  destruct (after c1) as [| x t]; [reflexivity |]. simpl in H1 |- *.
  apply andb_true_iff in H1 as [Hx Ht]. rewrite Hx. by apply IH.
Qed.

Lemma sub_all r repl s :
  (forall m, Str.all p (repl m) = true) ->
  Str.all p s = true -> Str.all p (sub r repl s) = true.
Proof. intros Hrepl Hs. by apply sub_from_all. Qed.

End All.

Lemma lower_no_upper s :
  Str.all (fun c => negb (Char.is_upper c)) (Str.lower s) = true.
Proof.
  unfold Str.lower. induction s as [| c s IH]; [reflexivity |]. simpl.
  rewrite IH, andb_true_r.
  destruct c as [[] [] [] [] [] [] [] []]; reflexivity.
Qed.

Lemma raw_words_no_upper body :
  Forall (fun w => Str.all (fun c => negb (Char.is_upper c)) w = true)
         (raw_words body).
Proof.
  unfold raw_words. apply all_split, all_strip_by.
  repeat (apply sub_all; [intros m; reflexivity |]).
  apply lower_no_upper.
Qed.

End AllFacts.

(** X3: on a text without uppercase letters the first rule of
    [split_weird_token] (a space between a lowercase and an uppercase
    letter) changes nothing, so that the text is split at the boundaries
    between letters and digits only.  The words that [tokenize_text] hands
    to [split_weird_token] hold no uppercase letter, the text being
    lowercased first: within [tokenize_text] the first rule never fires. *)
Theorem split_weird_token_lowercase body sw ks ml :
  (forall token,
     Str.all (fun c => negb (Char.is_upper c)) token = true ->
     split_weird_token token = split_at_digits token)
  /\ Forall (fun token => Str.all (fun c => negb (Char.is_upper c)) token = true)
            (raw_words body)
  /\ tokenize_text body sw ks ml
     = omap (clean_token sw ks ml) (flat_map split_at_digits (raw_words body)).
Proof.
  assert (Hrule : forall token,
            Str.all (fun c => negb (Char.is_upper c)) token = true ->
            split_weird_token token = split_at_digits token).
  { intros token Hlow. unfold split_weird_token, split_at_digits.
    rewrite (SubFacts.sub_no_match LOWER_UPPER); [reflexivity |].
    intros a b c' -> Hm.
    apply SubFacts.LOWER_UPPER_needs_upper in Hm.
    apply SubFacts.all_app_r in Hlow. congruence. }
  split; [exact Hrule |]. split; [apply AllFacts.raw_words_no_upper |].
  change (tokenize_text body sw ks ml)
    with (omap (clean_token sw ks ml) (flat_map split_weird_token (raw_words body))).
  f_equal. pose proof (AllFacts.raw_words_no_upper body) as Hall.
  induction Hall as [| w ws Hw _ IH]; [reflexivity |].
  simpl. by rewrite (Hrule w Hw), IH.
Qed.

Lemma split_weird_token_lowercase_witness :
  split_weird_token "love123joy" = ["love"; "123"; "joy"]
  /\ tokenize_text "Love123Joy" (stopwords default_config)
       (keep_short default_config) 3 = ["love"; "joy"].
Proof.
  destruct (split_weird_token_lowercase "Love123Joy" (stopwords default_config)
              (keep_short default_config) 3) as (Hrule & _ & Htok).
  split.
  - rewrite Hrule; reflexivity.
  - rewrite Htok. vm_compute. reflexivity.
Defined.

(** ** Reference detector: the normal form of a reference *)

Module NormFacts.
Import StrFacts SplitFacts.

Lemma upper_idem c : Char.upper (Char.upper c) = Char.upper c.
Proof. destruct c as [[] [] [] [] [] [] [] []]; reflexivity. Qed.

Lemma lower_idem c : Char.lower (Char.lower c) = Char.lower c.
Proof. destruct c as [[] [] [] [] [] [] [] []]; reflexivity. Qed.

Lemma upper_alpha c : Char.is_alpha c = true -> Char.is_alpha (Char.upper c) = true.
Proof.
  destruct c as [[] [] [] [] [] [] [] []]; intros H; vm_compute in H |- *;
    first [reflexivity | discriminate H].
Qed.

Lemma lower_alpha c : Char.is_alpha c = true -> Char.is_alpha (Char.lower c) = true.
Proof.
  destruct c as [[] [] [] [] [] [] [] []]; intros H; vm_compute in H |- *;
    first [reflexivity | discriminate H].
Qed.

Lemma str_lower_idem s : Str.lower (Str.lower s) = Str.lower s.
Proof.
  unfold Str.lower. induction s as [| c s IH]; [reflexivity |].
  simpl. by rewrite lower_idem, IH.
Qed.

Lemma str_lower_alpha s :
  Str.all Char.is_alpha s = true -> Str.all Char.is_alpha (Str.lower s) = true.
Proof.
  unfold Str.lower. induction s as [| c s IH]; [reflexivity |]. simpl.
  intros H. apply andb_true_iff in H as [Hc Hs].
  by rewrite (lower_alpha _ Hc), IH.
Qed.

Lemma capitalize_alpha w : Str.isalpha w = true -> Str.isalpha (Str.capitalize w) = true.
Proof.
  unfold Str.isalpha. destruct w as [| c w]; [discriminate |]. simpl.
  intros H. apply andb_true_iff in H as [Hc Hw].
  by rewrite (upper_alpha _ Hc), (str_lower_alpha _ Hw).
Qed.

Lemma capitalize_idem w : Str.capitalize (Str.capitalize w) = Str.capitalize w.
Proof.
  destruct w as [| c w]; [reflexivity |]. simpl.
  by rewrite upper_idem, str_lower_idem.
Qed.

Lemma cap_word_idem w : cap_word (cap_word w) = cap_word w.
Proof.
  unfold cap_word. destruct (Str.isalpha w) eqn:E.
  - by rewrite (capitalize_alpha _ E), capitalize_idem.
  - by rewrite E.
Qed.

Lemma alpha_word_like w : Str.isalpha w = true -> word_like w.
Proof.
  unfold Str.isalpha. intros H. apply andb_true_iff in H as [Hne Ha].
  split; [by destruct w |].
  clear Hne. induction w as [| c w IH]; [reflexivity |]. simpl in *.
  apply andb_true_iff in Ha as [Hc Hw].
  by rewrite (CharFacts.alpha_not_space _ Hc), IH.
Qed.

Lemma cap_word_word_like w : word_like w -> word_like (cap_word w).
Proof.
  intros Hw. unfold cap_word. destruct (Str.isalpha w) eqn:E; [| exact Hw].
  by apply alpha_word_like, capitalize_alpha.
Qed.

(** A list of two parts or more is a list of words and a last part. *)
Lemma snoc_view {A} (x y : A) (l : list A) :
  exists words suffix, x :: y :: l = words ++ [suffix] /\ words <> [].
Proof.
  destruct (exists_last (l:=x :: y :: l) ltac:(discriminate)) as (ws & s & E).
  exists ws, s. split; [exact E |]. intros ->. discriminate E.
Qed.

(** A text of white space only has no part. *)
Lemma split_blank s : Str.all Char.is_space s = true -> Str.split s = [].
Proof.
  unfold Str.split. induction s as [| c s IH]; [reflexivity |]. simpl.
  intros H. apply andb_true_iff in H as [Hc Hs]. rewrite Hc. by apply IH.
Qed.

End NormFacts.

Module AsciiFacts.
Import StrFacts.

Lemma upper_ascii c : (Char.code c <? 128)%N = true -> (Char.code (Char.upper c) <? 128)%N = true.
Proof.
  destruct c as [[] [] [] [] [] [] [] []]; intros H; vm_compute in H |- *;
    first [reflexivity | discriminate H].
Qed.

Lemma lower_ascii c : (Char.code c <? 128)%N = true -> (Char.code (Char.lower c) <? 128)%N = true.
Proof.
  destruct c as [[] [] [] [] [] [] [] []]; intros H; vm_compute in H |- *;
    first [reflexivity | discriminate H].
Qed.

Lemma str_lower_ascii s : ascii_text s -> ascii_text (Str.lower s).
Proof.
  unfold ascii_text, Str.lower. induction s as [| c s IH]; [done |]. simpl.
  intros H. apply andb_true_iff in H as [Hc Hs].
  by rewrite (lower_ascii _ Hc), IH.
Qed.

Lemma cap_word_ascii w : ascii_text w -> ascii_text (cap_word w).
Proof.
  unfold cap_word. destruct (Str.isalpha w); [| done].
  destruct w as [| c w]; [done |]. unfold ascii_text. simpl.
  intros H. apply andb_true_iff in H as [Hc Hw].
  rewrite (upper_ascii _ Hc). by apply str_lower_ascii.
Qed.

Lemma norm_ref_ascii m : ascii_text m -> ascii_text (norm_ref m).
Proof.
  intros Hm. destruct (Str.split m) as [| p0 [| q parts]] eqn:E.
  - unfold norm_ref. by rewrite E.
  - unfold norm_ref. rewrite E. reflexivity.
  - destruct (NormFacts.snoc_view p0 q parts) as (words & suffix & Hparts & Hne).
    rewrite Hparts in E. rewrite (norm_ref_split m words suffix E Hne).
    pose proof (AllFacts.all_split _ _ Hm) as Hall. rewrite E in Hall.
    apply Forall_app in Hall as [Hwords Hsuffix].
    apply AllFacts.all_join; [reflexivity |].
    apply Forall_app. split; [| exact Hsuffix].
    apply Forall_fmap. eapply Forall_impl; [exact Hwords |].
    intros w Hw. by apply cap_word_ascii.
Qed.

End AsciiFacts.

(** X4: on ASCII text [norm_ref] is idempotent: the normal form of an
    ASCII text is an ASCII text again, and normalizing it once more
    changes nothing.  (Outside ASCII [str.capitalize] can turn one letter
    into two, and the strings of this development do not apply.) *)
Theorem norm_ref_idempotent m :
  ascii_text m ->
  ascii_text (norm_ref m) /\ norm_ref (norm_ref m) = norm_ref m.
Proof.
  intros Hascii. split; [by apply AsciiFacts.norm_ref_ascii |]. clear Hascii.
  destruct (Str.split m) as [| p [| q parts]] eqn:E.
  - unfold norm_ref at 2. rewrite E. unfold norm_ref. by rewrite E.
  - assert (H : norm_ref m = "") by (unfold norm_ref; rewrite E; reflexivity).
    rewrite H. reflexivity.
  - destruct (NormFacts.snoc_view p q parts) as (words & suffix & Hparts & Hne).
    rewrite Hparts in E.
    pose proof (SplitFacts.split_word_like m) as Hall. rewrite E in Hall.
    rewrite (norm_ref_split m words suffix E Hne).
    apply Forall_app in Hall as [Hwords Hsuffix].
    assert (Hall' : Forall word_like ((cap_word <$> words) ++ [suffix])).
    { apply Forall_app. split; [| exact Hsuffix].
      apply Forall_fmap. eapply Forall_impl; [exact Hwords |].
      intros w Hw. by apply NormFacts.cap_word_word_like. }
    rewrite (norm_ref_split _ (cap_word <$> words) suffix).
    + f_equal. f_equal. rewrite <- list_fmap_compose.
      apply list_fmap_ext. intros i w _. apply NormFacts.cap_word_idem.
    + by apply SplitFacts.split_join.
    + by destruct words.
Qed.

Lemma norm_ref_idempotent_witness :
  ascii_text (norm_ref "1 john  4:8")
  /\ norm_ref (norm_ref "1 john  4:8") = norm_ref "1 john  4:8".
Proof.
  apply norm_ref_idempotent. reflexivity.
Defined.

(** X5: the degenerate inputs of [norm_ref]: a text of white space only
    (the empty text too) is returned as it is, and a text that is a single
    word gives the empty string, the word being lost. *)
Theorem norm_ref_degenerate m :
  (Str.all Char.is_space m = true -> norm_ref m = m)
  /\ (word_like m -> norm_ref m = "").
Proof.
  split.
  - intros H. unfold norm_ref. by rewrite (NormFacts.split_blank _ H).
  - intros H. assert (E : Str.split m = [m]).
    { apply (SplitFacts.split_join [m]). by constructor. }
    unfold norm_ref. rewrite E. reflexivity.
Qed.

Lemma norm_ref_degenerate_witness :
  norm_ref "   " = "   " /\ norm_ref "john" = "".
Proof.
  split.
  - apply (proj1 (norm_ref_degenerate "   ")). reflexivity.
  - apply (proj2 (norm_ref_degenerate "john")). split; [discriminate | reflexivity].
Defined.

(** ** Weight engine: agreement of the results, failures *)

Module WeightFacts.

(** [compute_word_weights] as the loop over the keys, started from the
    running counts. *)
Lemma compute_word_weights_loop tokens references boost_map rw manual :
  compute_word_weights tokens references boost_map rw manual
  = foldM (weigh_step boost_map (default ∅ manual) (Counter tokens)
             (foldl (bump rw) ∅ references)
             (foldl (bump 1) ∅
                (filter (fun p => p ∈ dom boost_map) (bigram_phrases tokens))))
          (running_counts tokens references boost_map rw, ∅)
          (elements (dom (running_counts tokens references boost_map rw)
                     ∪ dom (default ∅ manual))).
Proof.
  unfold compute_word_weights, running_counts.
  pose proof (accumulate_eq tokens references boost_map rw) as Hacc.
  simpl in Hacc. by rewrite Hacc.
Qed.

Section Loop.

Variables (boost_map manual_adjustments : gmap string Float.t).
Variables (base_counts ref_bonus bigrams : gmap string Z).

(** The loop raises as soon as the body raises for one of the keys. *)
Lemma foldM_weigh_step_None ks k :
  k ∈ ks ->
  (forall fc, weigh_key boost_map manual_adjustments base_counts ref_bonus
                        bigrams fc k = None) ->
  forall st,
  foldM (weigh_step boost_map manual_adjustments base_counts ref_bonus bigrams)
        st ks = None.
Proof.
  intros Hin Hk. induction ks as [| k0 ks IH]; intros st.
  - by apply elem_of_nil in Hin.
  - simpl. unfold weigh_step at 1.
    apply elem_of_cons in Hin as [<- | Hin].
    + by rewrite Hk.
    + destruct (weigh_key _ _ _ _ _ _ k0); simpl; [by apply IH | reflexivity].
Qed.

(** The loop returns when the body returns for every key. *)
Lemma foldM_weigh_step_Some ks :
  (forall k fc, k ∈ ks ->
     is_Some (weigh_key boost_map manual_adjustments base_counts ref_bonus
                        bigrams fc k)) ->
  forall st,
  is_Some (foldM (weigh_step boost_map manual_adjustments base_counts ref_bonus
                             bigrams) st ks).
Proof.
  induction ks as [| k0 ks IH]; intros Hall st; [by eexists |].
  simpl. unfold weigh_step at 1.
  destruct (Hall k0 (fst st)) as [stat ->]; [apply elem_of_cons; by left |].
  simpl. apply IH. intros k fc Hk. apply Hall. apply elem_of_cons. by right.
Qed.

End Loop.

Lemma eqb_one : Float.eqb Float.one Float.one = true.
Proof. reflexivity. Qed.

(** The product and the sum with a NaN or an infinity cannot be rounded. *)
Lemma round_mul_non_finite f x :
  non_finite x -> Float.round (Float.mul f x) = None.
Proof. destruct x as [| | |]; try done; intros _; by destruct f as [| | | ? ? ?]. Qed.

Lemma round_add_non_finite f x :
  non_finite x -> (forall s, f <> S754_infinity s) ->
  Float.round (Float.add f x) = None.
Proof.
  destruct x as [| sx | |]; try done; intros _ Hf.
  - destruct f as [| sf | | ? ? ?]; try reflexivity.
    by destruct (Hf sf).
  - by destruct f.
Qed.

Lemma of_int_finite z f : Float.of_int z = Some f -> forall s, f <> S754_infinity s.
Proof.
  unfold Float.of_int. destruct (Float.of_Z z); intros [= <-] s'; discriminate.
Qed.

Lemma non_finite_not_one x : non_finite x -> Float.eqb x Float.one = false.
Proof. destruct x as [| [] | |]; try done. Qed.

Lemma non_finite_truthy x : non_finite x -> Float.truthy x = true.
Proof. by destruct x. Qed.

Lemma apply_boost_non_finite current x : non_finite x -> apply_boost current x = None.
Proof.
  intros Hx. unfold apply_boost. rewrite (non_finite_not_one _ Hx). simpl.
  destruct (Float.of_int current) as [f |]; simpl; [| reflexivity].
  by apply round_mul_non_finite.
Qed.

Lemma apply_manual_non_finite current x : non_finite x -> apply_manual current x = None.
Proof.
  intros Hx. unfold apply_manual. rewrite (non_finite_truthy _ Hx).
  destruct (Float.of_int current) as [f |] eqn:E; simpl; [| reflexivity].
  rewrite round_add_non_finite; [reflexivity | exact Hx |].
  by apply (of_int_finite current).
Qed.

(** The loop body without multipliers and adjustments. *)
Lemma weigh_key_plain base_counts ref_bonus bigrams fc k :
  weigh_key ∅ ∅ base_counts ref_bonus bigrams fc k
  = Some {| key := k;
            base_count := get0 base_counts k;
            reference_bonus := get0 ref_bonus k;
            bigram_count := get0 bigrams k;
            boost_multiplier := Float.one;
            manual_adjustment := Float.zero;
            final_count := get0 fc k |}.
Proof.
  unfold weigh_key, manual_lookup. rewrite !lookup_empty. reflexivity.
Qed.

End WeightFacts.

(** X6: in the result of [compute_word_weights] the two dictionaries
    agree: the weight of a key is the final count of its stat record, a key
    has a weight exactly when it has a record, and every record is filed
    under the key it names. *)
Theorem weights_agree_with_stats tokens references boost_map rw manual weights stats :
  compute_word_weights tokens references boost_map rw manual = Some (weights, stats) ->
  forall k,
    weights !! k = final_count <$> stats !! k
    /\ (forall stat, stats !! k = Some stat -> key stat = k).
Proof.
  intros Hrun k.
  destruct (compute_word_weights_spec _ _ _ _ _ _ _ Hrun) as (Hw & Hs & Hkeys).
  destruct (decide (k ∈ dom stats)) as [Hin | Hout].
  - rewrite Hs in Hin. destruct (Hkeys k Hin) as (stat & Hwk & Hsk & Hfk).
    rewrite Hsk, Hfk. split; [reflexivity |].
    intros stat' [= <-]. by apply weigh_key_Some in Hwk as (? & _).
  - assert (Hout' : k ∉ dom weights) by (by rewrite Hw, <- Hs).
    apply not_elem_of_dom in Hout, Hout'. rewrite Hout, Hout'.
    split; [reflexivity | discriminate].
Qed.

Lemma weights_agree_with_stats_witness :
  match compute_word_weights ["mercy"; "mercy"] ["John 3:16"] BOOST_MAP 4 None with
  | Some (weights, stats) => weights !! "mercy" = final_count <$> stats !! "mercy"
  | None => False
  end.
Proof.
  destruct (compute_word_weights ["mercy"; "mercy"] ["John 3:16"] BOOST_MAP 4 None)
    as [[weights stats] |] eqn:E.
  - exact (proj1 (weights_agree_with_stats _ _ _ _ _ _ _ E "mercy")).
  - assert (H : returned (compute_word_weights ["mercy"; "mercy"] ["John 3:16"]
                            BOOST_MAP 4 None) = true) by (vm_compute; reflexivity).
    rewrite E in H. discriminate H.
Defined.

(** X7: for a key whose multiplier is 1.0 and whose manual adjustment is
    zero, the final count is the sum of the three tallies of its record:
    base count, reference bonus and bigram count. *)
Theorem final_count_without_boost tokens references boost_map rw manual
  weights stats k stat :
  compute_word_weights tokens references boost_map rw manual = Some (weights, stats) ->
  stats !! k = Some stat ->
  Float.eqb (boost_multiplier stat) Float.one = true ->
  Float.truthy (manual_adjustment stat) = false ->
  final_count stat = base_count stat + reference_bonus stat + bigram_count stat.
Proof.
  intros Hrun Hk Hone Hzero.
  destruct (compute_word_weights_spec _ _ _ _ _ _ _ Hrun) as (_ & Hs & Hkeys).
  assert (Hin : k ∈ dom stats) by (apply elem_of_dom; by eexists).
  rewrite Hs in Hin. destruct (Hkeys k Hin) as (stat' & Hwk & Hsk & _).
  assert (stat' = stat) as -> by congruence.
  apply weigh_key_Some in Hwk
    as (_ & Hb & Hr & Hg & _ & _ & boosted & Hboost & Hman).
  unfold apply_boost in Hboost. rewrite Hone in Hboost. simpl in Hboost.
  injection Hboost as <-.
  unfold apply_manual in Hman. rewrite Hzero in Hman. injection Hman as <-.
  rewrite Hb, Hr, Hg, get0_running_counts, get0_Counter, !get0_foldl_bump,
    !get0_empty, (occurrences_filter (fun p => p ∈ dom boost_map)).
  destruct (decide (k ∈ dom boost_map)); lia.
Qed.

Lemma final_count_without_boost_witness :
  match compute_word_weights ["love"; "love"; "John 3:16"] ["John 3:16"] BOOST_MAP 4 None with
  | Some (weights, stats) =>
      match stats !! "John 3:16" with
      | Some stat =>
          final_count stat = base_count stat + reference_bonus stat + bigram_count stat
      | None => False
      end
  | None => False
  end.
Proof.
  destruct (compute_word_weights ["love"; "love"; "John 3:16"] ["John 3:16"]
              BOOST_MAP 4 None) as [[weights stats] |] eqn:E.
  - destruct (stats !! "John 3:16") as [stat |] eqn:Es.
    + destruct (stats_entry _ _ _ _ _ _ _ _ _ E Es) as (_ & Hb & Hm & _).
      apply (final_count_without_boost _ _ _ _ _ _ _ _ _ E Es).
      * rewrite Hb. vm_compute. reflexivity.
      * rewrite Hm. vm_compute. reflexivity.
    + assert (H : final_count_of
                    (compute_word_weights ["love"; "love"; "John 3:16"] ["John 3:16"]
                       BOOST_MAP 4 None) "John 3:16" = Some 5)
        by (vm_compute; reflexivity).
      rewrite E in H. unfold final_count_of in H. simpl in H. rewrite Es in H.
      discriminate H.
  - assert (H : returned (compute_word_weights ["love"; "love"; "John 3:16"]
                            ["John 3:16"] BOOST_MAP 4 None) = true)
      by (vm_compute; reflexivity).
    rewrite E in H. discriminate H.
Defined.

(** X8: with an empty boost map and no manual adjustments
    [compute_word_weights] cannot raise, and the weight of every key is its
    frequency among the tokens plus the reference weight for each of its
    occurrences among the references. *)
Theorem compute_word_weights_plain tokens references rw :
  exists weights stats,
    compute_word_weights tokens references ∅ rw None = Some (weights, stats)
    /\ forall k,
         get0 weights k = occurrences k tokens + rw * occurrences k references.
Proof.
  assert (Hsome : is_Some (compute_word_weights tokens references ∅ rw None)).
  { rewrite WeightFacts.compute_word_weights_loop.
    apply WeightFacts.foldM_weigh_step_Some. intros k fc _.
    simpl. rewrite WeightFacts.weigh_key_plain. by eexists. }
  destruct Hsome as [[weights stats] Hrun]. exists weights, stats.
  split; [exact Hrun |]. intros k.
  destruct (compute_word_weights_spec _ _ _ _ _ _ _ Hrun) as (Hw & _ & Hkeys).
  pose proof (get0_running_counts tokens references ∅ rw k) as Hcount.
  rewrite dom_empty_L in Hcount.
  destruct (decide (k ∈ (∅ : gset string))) as [Hk | _];
    [by apply not_elem_of_empty in Hk |].
  rewrite Z.add_0_r in Hcount. rewrite <- Hcount.
  destruct (decide (k ∈ dom weights)) as [Hin | Hout].
  - rewrite Hw in Hin. destruct (Hkeys k Hin) as (stat & Hwk & _ & Hfk).
    unfold get0 at 1. rewrite Hfk. simpl in Hwk |- *.
    rewrite WeightFacts.weigh_key_plain in Hwk. by injection Hwk as <-.
  - assert (Hk : k ∉ dom (running_counts tokens references ∅ rw)).
    { intros Hd. apply Hout. rewrite Hw. apply elem_of_union. by left. }
    apply not_elem_of_dom in Hout, Hk. unfold get0. by rewrite Hout, Hk.
Qed.

(** X9: a manual adjustment that is a NaN or an infinity makes
    [compute_word_weights] raise, whatever the tokens; so does such a
    multiplier in the boost map as soon as the key it applies to is a token,
    a reference or a key of the manual adjustments. *)
Theorem non_finite_adjustment_raises tokens references boost_map rw manual :
  (forall k x, manual !! k = Some x -> non_finite x ->
     compute_word_weights tokens references boost_map rw (Some manual) = None)
  /\ (forall k x,
        k ∈ tokens ++ references \/ k ∈ dom manual ->
        boost_map !! Str.lower k = Some x -> non_finite x ->
        compute_word_weights tokens references boost_map rw (Some manual) = None).
Proof.
  split.
  - intros k x Hk Hx. rewrite WeightFacts.compute_word_weights_loop. simpl.
    apply WeightFacts.foldM_weigh_step_None with k.
    + apply elem_of_elements, elem_of_union. right. apply elem_of_dom. by eexists.
    + intros fc. unfold weigh_key.
      destruct (apply_boost _ _) as [boosted |]; simpl; [| reflexivity].
      unfold manual_lookup. rewrite Hk. simpl.
      by rewrite WeightFacts.apply_manual_non_finite.
  - intros k x Hk Hb Hx. rewrite WeightFacts.compute_word_weights_loop. simpl.
    apply WeightFacts.foldM_weigh_step_None with k.
    + apply elem_of_elements, elem_of_union. destruct Hk as [Hk | Hk]; [left | by right].
      rewrite dom_running_counts. apply elem_of_union. left.
      apply elem_of_app in Hk as [Hk | Hk]; apply elem_of_union; [left | right];
        by apply elem_of_list_to_set.
    + intros fc. unfold weigh_key. rewrite Hb. simpl.
      by rewrite WeightFacts.apply_boost_non_finite.
Qed.

Lemma non_finite_adjustment_raises_witness :
  compute_word_weights ["grace"] [] BOOST_MAP 4 (Some {["hope" := S754_nan]}) = None
  /\ compute_word_weights ["grace"] [] {["grace" := S754_infinity false]} 4 (Some ∅)
     = None.
Proof.
  split.
  - apply (proj1 (non_finite_adjustment_raises ["grace"] [] BOOST_MAP 4
                    {["hope" := S754_nan]}) "hope" S754_nan);
      [apply lookup_singleton_eq | exact I].
  - apply (proj2 (non_finite_adjustment_raises ["grace"] []
                    {["grace" := S754_infinity false]} 4 ∅)
             "grace" (S754_infinity false));
      [left; apply elem_of_cons; by left | apply lookup_singleton_eq | exact I].
Defined.

(** ** JSON extraction adapter: what is collected, when it can fail *)

Module JsonFacts.

(** Induction on a JSON value, its elements and entries included. *)
Lemma json_induction (P : json -> Prop) :
  P JNull -> (forall b, P (JBool b)) -> (forall z, P (JInt z)) ->
  (forall f, P (JFloat f)) -> (forall s, P (JStr s)) ->
  (forall l, Forall P l -> P (JList l)) ->
  (forall d, Forall (fun kv => P (snd kv)) d -> P (JDict d)) ->
  forall v, P v.
Proof.
  intros HN HB HI HF HS HL HD.
  fix IH 1. intros [| b | z | f | s | l | d].
  - exact HN.
  - apply HB.
  - apply HI.
  - apply HF.
  - apply HS.
  - apply HL. induction l as [| x l IHl]; constructor; [apply IH | exact IHl].
  - apply HD. induction d as [| [k x] d IHd]; constructor; [apply IH | exact IHd].
Qed.

Lemma flat_map_Forall_ext {A B} (f g : A -> list B) (l : list A) :
  Forall (fun x => f x = g x) l -> flat_map f l = flat_map g l.
Proof. induction 1 as [| x l Hx _ IH]; [reflexivity |]. simpl. by rewrite Hx, IH. Qed.

Lemma flat_map_sublist {A B} (f g : A -> list B) (l : list A) :
  Forall (fun x => sublist (f x) (g x)) l -> sublist (flat_map f l) (flat_map g l).
Proof.
  induction 1 as [| x l Hx _ IH]; [constructor |]. simpl. by apply sublist_app.
Qed.

(** Below an included value, or with every string wanted, the walk
    collects all the strings. *)
Lemma iter_all v : forall keys collect_all include,
  collect_all || include || bool_decide (keys = ∅) = true ->
  _iter_json_strings v keys collect_all include = string_leaves v.
Proof.
  induction v as [| b | z | f | s | l IH | d IH] using json_induction;
    intros keys ca inc H; simpl; try reflexivity.
  - by rewrite H.
  - apply flat_map_Forall_ext. eapply Forall_impl; [exact IH |].
    intros x Hx. by apply Hx.
  - apply flat_map_Forall_ext. eapply Forall_impl; [exact IH |].
    intros [k x] Hx. simpl in *. apply Hx.
    apply orb_true_iff in H as [H | H].
    + apply orb_true_iff in H as [-> | ->]; [reflexivity |].
      by rewrite !orb_true_r.
    + destruct ca; [reflexivity |]. simpl.
      apply bool_decide_eq_true in H. subst keys.
      rewrite bool_decide_eq_false_2 by apply not_elem_of_empty. simpl.
      destruct inc; [reflexivity |]. simpl. by apply bool_decide_eq_true.
Qed.

(** The walk collects strings of the value only, in their order. *)
Lemma iter_sublist v : forall keys collect_all include,
  sublist (_iter_json_strings v keys collect_all include) (string_leaves v).
Proof.
  induction v as [| b | z | f | s | l IH | d IH] using json_induction;
    intros keys ca inc; simpl; try apply sublist_nil_l.
  - destruct (ca || inc || bool_decide (keys = ∅)); [reflexivity |].
    apply sublist_nil_l.
  - apply flat_map_sublist. eapply Forall_impl; [exact IH |].
    intros x Hx. apply Hx.
  - apply flat_map_sublist. eapply Forall_impl; [exact IH |].
    intros [k x] Hx. apply Hx.
Qed.

(** Joining the strings found by the walk cannot fail. *)
Lemma join_truthy_strings strings :
  join_truthy (JStr <$> strings)
  = Ok (Str.join TEXT_SEP (filter (fun s => s <> "") strings)).
Proof.
  unfold join_truthy.
  assert (H : traverse (fun v => match v with JStr s => Ok s | _ => Raise TypeError end)
                (filter (fun v => truthy v = true) (JStr <$> strings))
              = Ok (filter (fun s => s <> "") strings)).
  { induction strings as [| s strings IH]; [reflexivity |].
    rewrite fmap_cons, !filter_cons.
    destruct s as [| c s]; simpl.
    - destruct (decide (false = true)) as [Hf | _]; [discriminate Hf |].
      destruct (decide ("" <> "")) as [Hn | _]; [by destruct Hn |]. exact IH.
    - destruct (decide (true = true)) as [_ | Hn]; [| by destruct Hn].
      destruct (decide (String c s <> "")) as [_ | Hn];
        [| destruct Hn; discriminate].
      simpl. by rewrite IH. }
  by rewrite H.
Qed.

Lemma default_keys_plaintext :
  "plaintext" ∈ (list_to_set (Str.lower <$> DEFAULT_JSON_KEYS) : gset string).
Proof.
  apply (bool_decide_eq_true_1
           ("plaintext" ∈ (list_to_set (Str.lower <$> DEFAULT_JSON_KEYS) : gset string))).
  vm_compute. reflexivity.
Qed.

End JsonFacts.

(** X10: the legacy path of [extract_text_from_json_payload] is taken only
    under an explicit, non-empty key selection that does not name
    "plaintext", collect-all being off; with the default keys it is never
    taken, whatever the payload. *)
Theorem fallback_needs_custom_keys payload cfg :
  fallback_taken payload cfg = true ->
  collect_all_json_strings cfg = false
  /\ exists ks, json_text_keys cfg = Some ks /\ ks <> ∅
                /\ "plaintext" ∉ stripped_lowered ks.
Proof.
  unfold fallback_taken. intros H.
  apply andb_true_iff in H as [H Hplain].
  apply andb_true_iff in H as [_ Hall].
  apply negb_true_iff in Hall, Hplain. split; [exact Hall |].
  apply bool_decide_eq_false in Hplain.
  unfold resolved_json_keys in Hplain. rewrite Hall in Hplain.
  destruct (json_text_keys cfg) as [ks |].
  - destruct (decide (ks = ∅)) as [-> | Hne].
    + destruct Hplain. apply JsonFacts.default_keys_plaintext.
    + by exists ks.
  - destruct Hplain. apply JsonFacts.default_keys_plaintext.
Qed.

Lemma fallback_needs_custom_keys_witness :
  collect_all_json_strings (with_json_text_keys (Some {["text"]}) default_config) = false
  /\ exists ks, json_text_keys (with_json_text_keys (Some {["text"]}) default_config)
                = Some ks
                /\ ks <> ∅ /\ "plaintext" ∉ stripped_lowered ks.
Proof.
  apply (fallback_needs_custom_keys empty_db).
  vm_compute. reflexivity.
Defined.

(** X11: when the resolved key set is empty the walk collects every string
    of the payload, in document order.  This is the case under collect-all,
    and also under a key selection whose names are all blank. *)
Theorem empty_keys_collect_everything payload cfg :
  resolved_json_keys cfg = ∅ ->
  primary_strings payload cfg = string_leaves payload.
Proof.
  intros H. unfold primary_strings. apply JsonFacts.iter_all.
  rewrite H. rewrite bool_decide_eq_true_2 by reflexivity. apply orb_true_r.
Qed.

Lemma empty_keys_collect_everything_witness :
  primary_strings ghost_export (with_json_text_keys (Some {[" "]}) default_config)
  = string_leaves ghost_export.
Proof.
  apply empty_keys_collect_everything.
  apply set_eq. intros x. split; [| intros Hx; by apply not_elem_of_empty in Hx].
  intros Hx. exfalso.
  apply elem_of_stripped_lowered in Hx as (w & Hw & Hne & _).
  apply elem_of_singleton in Hw. subst w. apply Hne. reflexivity.
Defined.

(** X12: once the key of an entry is one of the resolved keys, every string
    below the entry is collected, whatever the keys further down. *)
Theorem matched_key_collects_subtree k child keys collect_all include :
  Str.lower k ∈ keys ->
  _iter_json_strings (JDict [(k, child)]) keys collect_all include
  = string_leaves child.
Proof.
  intros Hk. simpl. rewrite app_nil_r. apply JsonFacts.iter_all.
  rewrite (bool_decide_eq_true_2 (Str.lower k ∈ keys) Hk).
  by destruct collect_all, include.
Qed.

Lemma matched_key_collects_subtree_witness :
  _iter_json_strings
    (JDict [("Body", JDict [("title", JStr "a"); ("parts", JList [JStr "b"; JInt 1])])])
    {["body"]} false false
  = ["a"; "b"].
Proof.
  rewrite matched_key_collects_subtree; [reflexivity |].
  apply elem_of_singleton. reflexivity.
Defined.

(** X13: the walk never invents text: the strings it collects are strings
    of the payload, in the order of the payload. *)
Theorem primary_strings_are_leaves payload cfg :
  sublist (primary_strings payload cfg) (string_leaves payload).
Proof. apply JsonFacts.iter_sublist. Qed.

(** X14: when the legacy path is not taken, [extract_text_from_json_payload]
    cannot raise: it returns the non-empty strings of the walk, joined by a
    space and a line feed.  In particular strings that are matched but
    empty give the empty text and do not trigger the legacy path. *)
Theorem extract_text_without_fallback payload cfg :
  fallback_taken payload cfg = false ->
  extract_text_from_json_payload payload cfg
  = Ok (Str.join TEXT_SEP
          (filter (fun s => s <> "") (primary_strings payload cfg))).
Proof.
  intros H. unfold extract_text_from_json_payload. rewrite H. simpl.
  apply JsonFacts.join_truthy_strings.
Qed.

Lemma extract_text_without_fallback_witness :
  extract_text_from_json_payload
    (JDict [("text", JStr ""); ("db", JList [])])
    (with_json_text_keys (Some {["text"]}) default_config)
  = Ok "".
Proof.
  rewrite extract_text_without_fallback; vm_compute; reflexivity.
Defined.

(** ** JSON extraction adapter: the legacy path *)

Module LegacyFacts.

Lemma traverse_plaintext texts :
  traverse (fun post => py_get post "plaintext" (JStr ""))
           ((fun t => JDict [("plaintext", JStr t)]) <$> texts)
  = Ok (JStr <$> texts).
Proof.
  induction texts as [| t texts IH]; [reflexivity |].
  rewrite !fmap_cons. cbn [traverse]. rewrite IH. reflexivity.
Qed.

Lemma legacy_strings_ghost_of texts :
  legacy_strings (ghost_of texts) = Ok (JStr <$> texts).
Proof. apply traverse_plaintext. Qed.

End LegacyFacts.

(** X15: on a well-formed Ghost export, when the legacy path is taken, the
    extracted text is made of the non-empty plain texts of the posts, in
    the order of the posts, joined by a space and a line feed. *)
Theorem legacy_path_ghost_export texts cfg :
  fallback_taken (ghost_of texts) cfg = true ->
  extract_text_from_json_payload (ghost_of texts) cfg
  = Ok (Str.join TEXT_SEP (filter (fun s => s <> "") texts)).
Proof.
  intros H. unfold extract_text_from_json_payload. rewrite H.
  change (is_mapping (ghost_of texts)) with true. cbv iota.
  rewrite LegacyFacts.legacy_strings_ghost_of. simpl.
  apply JsonFacts.join_truthy_strings.
Qed.

Lemma legacy_path_ghost_export_witness :
  extract_text_from_json_payload (ghost_of ["first post"; ""; "second"])
    (with_json_text_keys (Some {["text"]}) default_config)
  = Ok (Str.join TEXT_SEP ["first post"; "second"]).
Proof.
  rewrite legacy_path_ghost_export; vm_compute; reflexivity.
Defined.

(** X16: the legacy path gives the empty text, and does not raise, for a
    payload that is not an object and for an object without a "db"
    entry: the defaults of the chained lookups lead to an empty list of
    posts. *)
Theorem legacy_path_without_db payload cfg :
  fallback_taken payload cfg = true ->
  match payload with JDict d => assoc "db" d = None | _ => True end ->
  extract_text_from_json_payload payload cfg = Ok "".
Proof.
  intros H Hdb. unfold extract_text_from_json_payload. rewrite H.
  destruct payload as [| b | z | f | s | l | d]; try reflexivity.
  simpl. unfold legacy_strings, extract_posts. simpl. rewrite Hdb. reflexivity.
Qed.

Lemma legacy_path_without_db_witness :
  extract_text_from_json_payload
    (JDict [("posts", JList [JDict [("plaintext", JStr "lost")]])])
    (with_json_text_keys (Some {["text"]}) default_config)
  = Ok "".
Proof.
  apply legacy_path_without_db; [vm_compute; reflexivity | reflexivity].
Defined.

(** ** Configuration and tokenizer together *)

(** X17: a word the configuration adds as an extra stopword, and does not
    remove again, is never among the tokens of
    [extract_tokens_and_references], whatever the text and whatever the
    enabled groups. *)
Theorem extra_stopword_never_token text cfg w :
  w ∈ stripped_lowered (extra_stopwords cfg) ->
  w ∉ stripped_lowered (remove_stopwords cfg) ->
  w ∉ fst (extract_tokens_and_references text cfg).
Proof.
  intros Hextra Hremove Hin. unfold extract_tokens_and_references in Hin.
  simpl in Hin. unfold tokenize_text in Hin.
  apply list_elem_of_omap in Hin as (x & _ & Hx).
  apply TokenFacts.clean_token_inv in Hx as (_ & _ & Hsw & _).
  apply Hsw. apply elem_of_stopwords. split; [by right | exact Hremove].
Qed.

Lemma extra_stopword_never_token_witness :
  "grace" ∉ fst (extract_tokens_and_references "Grace upon grace"
                   (with_extra_stopwords {[" Grace "]} default_config)).
Proof.
  apply extra_stopword_never_token.
  - apply elem_of_stripped_lowered. exists " Grace ".
    split; [| split; [discriminate | reflexivity]].
    change (" Grace " ∈ ({[" Grace "]} : gset string)).
    by apply elem_of_singleton_2.
  - intros H. apply elem_of_stripped_lowered in H as (w & Hw & _).
    change (w ∈ (∅ : gset string)) in Hw. by apply not_elem_of_empty in Hw.
Defined.

(** ** Stopword groups chosen on the command line and in a request *)

Module GroupFacts.

Lemma default_groups_not_empty :
  (list_to_set DEFAULT_STOP_GROUPS : gset string) <> ∅.
Proof.
  intros H. assert (Hin : "base" ∈ (list_to_set DEFAULT_STOP_GROUPS : gset string)).
  { apply elem_of_list_to_set. apply elem_of_cons. by left. }
  rewrite H in Hin. by apply not_elem_of_empty in Hin.
Qed.

Lemma keep_allowed_known requested : forall groups,
  keep_allowed requested = Ok groups ->
  Forall (fun g => g ∈ DEFAULT_STOP_GROUPS) groups
  /\ sublist (JStr <$> groups) requested.
Proof.
  induction requested as [| v requested IH]; intros groups H.
  - injection H as <-. split; [constructor | reflexivity].
  - destruct v as [| b | z | f | name | l | d]; cbn [keep_allowed] in H;
      try discriminate H;
      try (destruct (IH _ H) as [Hk Hs]; split; [exact Hk | by apply sublist_cons]).
    destruct (keep_allowed requested) as [kept | e]; [| discriminate H].
    cbn [bind] in H. destruct (IH kept eq_refl) as [Hk Hs].
    destruct (decide (name ∈ fst <$> STOP_GROUPS)) as [E | E].
    + rewrite (bool_decide_eq_true_2 _ E) in H. injection H as <-. split.
      * constructor; [exact E | exact Hk].
      * rewrite fmap_cons. by apply sublist_skip.
    + rewrite (bool_decide_eq_false_2 _ E) in H. injection H as <-.
      split; [exact Hk | by apply sublist_cons].
Qed.

End GroupFacts.

(** X18: [resolved_stop_groups] never returns the empty set, whatever is
    disabled and enabled. *)
Theorem resolved_stop_groups_not_empty disabled enabled :
  resolved_stop_groups disabled enabled <> ∅.
Proof.
  unfold resolved_stop_groups.
  destruct (decide (_ = ∅)) as [-> | Hne]; [| exact Hne].
  rewrite (left_id_L ∅ (∪)). apply GroupFacts.default_groups_not_empty.
Qed.

(** X19: enabling wins over disabling: a group that is enabled is in the
    result of [resolved_stop_groups], also when it is disabled as well. *)
Theorem enabled_group_is_resolved disabled enabled g :
  g ∈ enabled -> g ∈ resolved_stop_groups disabled enabled.
Proof.
  intros Hg. unfold resolved_stop_groups.
  destruct enabled as [| e enabled]; [by apply elem_of_nil in Hg |].
  assert (Hin : g ∈ (list_to_set DEFAULT_STOP_GROUPS ∖ list_to_set disabled
                     ∪ list_to_set (e :: enabled) : gset string)).
  { apply elem_of_union. right. by apply elem_of_list_to_set. }
  destruct (decide (_ = ∅)) as [Hempty | _]; [| exact Hin].
  rewrite Hempty in Hin. by apply not_elem_of_empty in Hin.
Qed.

Lemma enabled_group_is_resolved_witness :
  "fillers" ∈ resolved_stop_groups ["fillers"; "base"] ["fillers"].
Proof.
  apply enabled_group_is_resolved. apply elem_of_cons. by left.
Defined.

(** X20: disabling every default group, with no group enabled, disables
    nothing: the result is the set of all the default groups again. *)
Theorem disabling_all_groups_restores_defaults disabled :
  (forall g, g ∈ DEFAULT_STOP_GROUPS -> g ∈ disabled) ->
  resolved_stop_groups disabled [] = list_to_set DEFAULT_STOP_GROUPS.
Proof.
  intros Hall. unfold resolved_stop_groups.
  assert (Hempty : (list_to_set DEFAULT_STOP_GROUPS ∖ list_to_set disabled
                    : gset string) = ∅).
  { apply set_eq. intros g. split; [| intros H; by apply not_elem_of_empty in H].
    intros H. apply elem_of_difference in H as [Hd Hn]. exfalso. apply Hn.
    apply elem_of_list_to_set, Hall. by apply elem_of_list_to_set in Hd. }
  rewrite Hempty. destruct (decide (∅ = ∅)) as [_ | Hne]; [| by destruct Hne].
  by rewrite (left_id_L ∅ (∪)).
Qed.

Lemma disabling_all_groups_restores_defaults_witness :
  resolved_stop_groups (List.rev DEFAULT_STOP_GROUPS) []
  = list_to_set DEFAULT_STOP_GROUPS.
Proof.
  apply disabling_all_groups_restores_defaults.
  intros g Hg. apply list_elem_of_In, List.in_rev. rewrite List.rev_involutive.
  by apply list_elem_of_In.
Defined.

(** X21: the groups that [parse_stopword_groups] returns are names of
    built-in groups, and they are requested values, in the order of the
    request: an unknown name never reaches the configuration. *)
Theorem parsed_groups_are_known payload groups :
  parse_stopword_groups payload = Ok groups ->
  Forall (fun g => g ∈ DEFAULT_STOP_GROUPS) groups
  /\ forall requested,
       py_get payload "stopwordGroups" JNull = Ok (JList requested) ->
       sublist (JStr <$> groups) requested.
Proof.
  unfold parse_stopword_groups. intros H.
  destruct (py_get payload "stopwordGroups" JNull) as [requested | e];
    [| discriminate H].
  simpl in H.
  destruct requested as [| b | z | f | s | l | d]; try discriminate H.
  - injection H as <-. split; [| intros ? [=]].
    apply Forall_forall. by intros g Hg.
  - simpl in H. destruct (GroupFacts.keep_allowed_known _ _ H) as [Hk _].
    split; [exact Hk | intros ? [=]].
  - simpl in H. destruct (GroupFacts.keep_allowed_known _ _ H) as [Hk Hs].
    split; [exact Hk |]. intros requested [= <-]. exact Hs.
  - simpl in H. destruct (GroupFacts.keep_allowed_known _ _ H) as [Hk _].
    split; [exact Hk | intros ? [=]].
Qed.

Lemma parsed_groups_are_known_witness :
  Forall (fun g => g ∈ DEFAULT_STOP_GROUPS) ["fillers"; "base"]
  /\ forall requested,
       py_get (JDict [("stopwordGroups",
                       JList [JStr "fillers"; JStr "nope"; JInt 3; JStr "base"])])
              "stopwordGroups" JNull = Ok (JList requested) ->
       sublist (JStr <$> ["fillers"; "base"]) requested.
Proof.
  apply parsed_groups_are_known. vm_compute. reflexivity.
Defined.

(** ** Token cache of the web application *)

Module CacheFacts.

Section Facts.

Context {K V : Type} `{EqDecision K}.

Implicit Types (d : list (K * gmap string V)) (k : K) (entry : gmap string V).

Lemma od_get_set d k entry : od_get (od_set d k entry) k = Some entry.
Proof.
  unfold od_get. induction d as [| [k' e'] d IH]; simpl.
  - by rewrite bool_decide_eq_true_2.
  - destruct (decide (k' = k)) as [-> | Hne]; simpl.
    + by rewrite bool_decide_eq_true_2.
    + rewrite bool_decide_eq_false_2 by exact Hne. exact IH.
Qed.

Lemma od_get_fresh_last d k entry :
  Forall (fun kv => fst kv <> k) d -> od_get (d ++ [(k, entry)]) k = Some entry.
Proof.
  unfold od_get. induction 1 as [| [k' e'] d Hne _ IH]; simpl.
  - by rewrite bool_decide_eq_true_2.
  - simpl in Hne. rewrite bool_decide_eq_false_2 by exact Hne. exact IH.
Qed.

Lemma od_get_app_l d d' k entry :
  od_get d k = Some entry -> od_get (d ++ d') k = Some entry.
Proof.
  unfold od_get. induction d as [| [k' e'] d IH]; simpl; [discriminate |].
  destruct (bool_decide (k' = k)); [done | exact IH].
Qed.

Lemma od_get_None d k : od_get d k = None -> Forall (fun kv => fst kv <> k) d.
Proof.
  unfold od_get. induction d as [| [k' e'] d IH]; simpl; [constructor |].
  destruct (decide (k' = k)) as [-> | Hne].
  - by rewrite bool_decide_eq_true_2.
  - rewrite bool_decide_eq_false_2 by exact Hne. intros H.
    constructor; [exact Hne | by apply IH].
Qed.

Lemma filter_other k : forall d, Forall (fun kv => fst kv <> k)
                                   (filter (fun kv : K * gmap string V => fst kv <> k) d).
Proof.
  intros d. apply Forall_forall. intros kv Hkv.
  by apply list_elem_of_filter in Hkv as [Hne _].
Qed.

Lemma filter_fresh k d :
  Forall (fun kv => fst kv <> k) d ->
  filter (fun kv : K * gmap string V => fst kv <> k) d = d.
Proof.
  induction 1 as [| kv d Hne _ IH]; [reflexivity |].
  rewrite filter_cons_True by exact Hne. by rewrite IH.
Qed.

Lemma evict_length capacity d :
  0 <= capacity -> Z.of_nat (length (evict capacity d)) <= capacity.
Proof.
  intros Hc. induction d as [| kv d IH]; [simpl; lia |].
  cbn [evict]. destruct (capacity <? Z.of_nat (length (kv :: d))) eqn:E.
  - exact IH.
  - apply Z.ltb_ge in E. exact E.
Qed.

Lemma evict_fits capacity d :
  Z.of_nat (length d) <= capacity -> evict capacity d = d.
Proof.
  intros Hc. destruct d as [| kv d]; [reflexivity |]. cbn [evict].
  apply Z.ltb_ge in Hc. by rewrite Hc.
Qed.

(** The eviction keeps the newest entries: it drops a prefix. *)
Lemma evict_suffix capacity d : exists dropped, d = dropped ++ evict capacity d.
Proof.
  induction d as [| kv d [dropped IH]]; [by exists [] |].
  cbn [evict]. destruct (capacity <? Z.of_nat (length (kv :: d))).
  - exists (kv :: dropped). simpl. by rewrite <- IH.
  - by exists [].
Qed.

(** The eviction never reaches the newest entries that fit the
    capacity. *)
Lemma evict_keeps_tail capacity d tail :
  Z.of_nat (length tail) <= capacity ->
  exists dropped kept,
    d = dropped ++ kept /\ evict capacity (d ++ tail) = kept ++ tail.
Proof.
  intros Hc. induction d as [| x d (dropped & kept & Hd & IH)].
  - exists [], []. split; [reflexivity |]. by apply evict_fits.
  - change ((x :: d) ++ tail) with (x :: (d ++ tail)). cbn [evict].
    destruct (capacity <? _).
    + exists (x :: dropped), kept. split; [by rewrite Hd | exact IH].
    + by exists [], (x :: d).
Qed.

Lemma od_get_fresh_head d k entry rest :
  Forall (fun kv => fst kv <> k) d ->
  od_get (d ++ (k, entry) :: rest) k = Some entry.
Proof.
  unfold od_get. induction 1 as [| [k' e'] d Hne _ IH]; simpl.
  - by rewrite bool_decide_eq_true_2.
  - simpl in Hne. rewrite bool_decide_eq_false_2 by exact Hne. exact IH.
Qed.

(** An assignment changes entries of its own key only. *)
Lemma filter_od_set d k entry :
  filter (fun kv : K * gmap string V => fst kv <> k) (od_set d k entry)
  = filter (fun kv : K * gmap string V => fst kv <> k) d.
Proof.
  unfold ordered_dict. induction d as [| [k' e'] d IH]; cbn [od_set].
  - rewrite filter_cons_False; [reflexivity |]. simpl. by intros Hne.
  - destruct (decide (k' = k)) as [-> | Hne].
    + rewrite !filter_cons_False; [reflexivity | |]; simpl; by intros Hne.
    + rewrite !filter_cons_True by exact Hne. by rewrite IH.
Qed.

(** What [store_cache_entry] does when it stores. *)
Lemma store_stores setting d k entry :
  is_Some (entry !! "tokens") -> is_Some (entry !! "references") ->
  store_cache_entry true setting d (Some k) entry
  = Some (evict (CACHE_CAPACITY setting)
            (filter (fun kv : K * gmap string V => fst kv <> k) d ++ [(k, entry)])).
Proof.
  intros Ht Hr. unfold store_cache_entry. cbn [negb].
  rewrite !bool_decide_eq_true_2 by assumption. cbn [negb orb].
  unfold od_move_to_end. rewrite od_get_set. cbn [mbind option_bind].
  by rewrite filter_od_set.
Qed.

Lemma evict_fresh capacity d k :
  Forall (fun kv => fst kv <> k) d ->
  Forall (fun kv : K * gmap string V => fst kv <> k) (evict capacity d).
Proof.
  intros H. destruct (evict_suffix capacity d) as [dropped E].
  rewrite E in H. by apply Forall_app in H as [_ H].
Qed.

End Facts.

End CacheFacts.

(** X22: two configurations with the same cache key extract the same
    tokens and references from every text, and the same text from every
    JSON payload: a cache hit never serves the tokens of another
    extraction. *)
Theorem cache_key_determines_extraction path file_type mtime cfg1 cfg2 k :
  build_token_cache_key path file_type mtime cfg1 = Some k ->
  build_token_cache_key path file_type mtime cfg2 = Some k ->
  (forall text,
     extract_tokens_and_references text cfg1
     = extract_tokens_and_references text cfg2)
  /\ (forall payload,
        extract_text_from_json_payload payload cfg1
        = extract_text_from_json_payload payload cfg2).
Proof.
  unfold build_token_cache_key, cache_key_of. intros H1 H2.
  destruct mtime as [stat |]; [| discriminate H1]. simpl in H1, H2.
  rewrite <- H1 in H2. injection H2 as Hsw Hks Hml Hall Hkeys Hdet.
  assert (Hres : resolved_json_keys cfg1 = resolved_json_keys cfg2).
  { unfold resolved_json_keys. rewrite Hall.
    destruct (collect_all_json_strings cfg1); [reflexivity |].
    destruct (json_text_keys cfg1) as [ks1 |], (json_text_keys cfg2) as [ks2 |];
      simpl in Hkeys; subst; try reflexivity.
    all: destruct (decide (_ = _)) as [_ | Hne]; [reflexivity | by destruct Hne]. }
  split.
  - intros text. unfold extract_tokens_and_references.
    by rewrite Hsw, Hks, Hml, Hdet.
  - intros payload.
    unfold extract_text_from_json_payload, fallback_taken, primary_strings.
    by rewrite Hres, Hall.
Qed.

Lemma cache_key_determines_extraction_witness :
  (forall text,
     extract_tokens_and_references text default_config
     = extract_tokens_and_references text
         (with_json_text_keys (Some ∅) default_config))
  /\ (forall payload,
        extract_text_from_json_payload payload default_config
        = extract_text_from_json_payload payload
            (with_json_text_keys (Some ∅) default_config)).
Proof.
  eapply (cache_key_determines_extraction "posts.json" "json" (Some 1));
    reflexivity.
Defined.

(** X23: an entry that holds tokens and references is found again right
    after it is stored, whatever the cache held and whatever the capacity
    setting, the capacity being one at least: neither call raises. *)
Theorem store_then_get_hits {K V : Type} `{EqDecision K}
  setting (d : list (K * gmap string V)) k entry :
  is_Some (entry !! "tokens") -> is_Some (entry !! "references") ->
  exists d' d'',
    store_cache_entry true setting d (Some k) entry = Some d'
    /\ get_cached_prepared true d' (Some k) = Some ((Some k, Some entry), d'').
Proof.
  intros Ht Hr. rewrite (CacheFacts.store_stores _ _ _ _ Ht Hr).
  destruct (CacheFacts.evict_keeps_tail (CACHE_CAPACITY setting)
              (filter (fun kv : K * gmap string V => fst kv <> k) d) [(k, entry)])
    as (dropped & kept & Hd & ->); [unfold CACHE_CAPACITY; simpl; lia |].
  assert (Hfresh : Forall (fun kv => fst kv <> k) kept).
  { pose proof (CacheFacts.filter_other k d) as Hf. rewrite Hd in Hf.
    by apply Forall_app in Hf as [_ Hf]. }
  eexists _, _. split; [reflexivity |].
  unfold get_cached_prepared, od_move_to_end. cbn [negb].
  rewrite (CacheFacts.od_get_fresh_head _ _ _ [] Hfresh). reflexivity.
Qed.

Lemma store_then_get_hits_witness :
  exists d' d'',
    store_cache_entry true 8 []
      (Some (cache_key_of "a.json" "json" 1 default_config))
      ({["tokens" := ["grace"]; "references" := []]} : gmap string (list string))
    = Some d'
    /\ get_cached_prepared true d'
         (Some (cache_key_of "a.json" "json" 1 default_config))
       = Some ((Some (cache_key_of "a.json" "json" 1 default_config),
                Some {["tokens" := ["grace"]; "references" := []]}), d'').
Proof.
  apply store_then_get_hits; by eexists.
Defined.

(** X24: [store_cache_entry] never raises and keeps the cache within the
    capacity. *)
Theorem store_keeps_capacity {K V : Type} `{EqDecision K}
  enabled setting (d : list (K * gmap string V)) cache_key entry :
  Z.of_nat (length d) <= CACHE_CAPACITY setting ->
  exists d',
    store_cache_entry enabled setting d cache_key entry = Some d'
    /\ Z.of_nat (length d') <= CACHE_CAPACITY setting.
Proof.
  intros Hd. unfold store_cache_entry.
  destruct enabled; cbn [negb]; [| by exists d].
  destruct cache_key as [k |]; [| by exists d].
  destruct (negb _ || negb _); [by exists d |].
  unfold od_move_to_end. rewrite CacheFacts.od_get_set. cbn [mbind option_bind].
  eexists. split; [reflexivity |].
  apply CacheFacts.evict_length. unfold CACHE_CAPACITY. lia.
Qed.

Lemma store_keeps_capacity_witness :
  exists d',
    store_cache_entry true 1
      [(cache_key_of "a.json" "json" 1 default_config,
        ({["tokens" := ["grace"]; "references" := []]} : gmap string (list string)))]
      (Some (cache_key_of "b.txt" "text" 2 default_config))
      {["tokens" := ["mercy"]; "references" := []]}
    = Some d'
    /\ Z.of_nat (length d') <= CACHE_CAPACITY 1.
Proof.
  apply store_keeps_capacity. vm_compute. discriminate.
Defined.

(** X25: the cache evicts the least recently used entry: with a capacity
    of two at least, an entry that was just read is still in the cache
    after another key is stored, however full the cache is. *)
Theorem recently_used_entry_survives {K V : Type} `{EqDecision K}
  setting (d : list (K * gmap string V)) k entry k' entry' :
  2 <= setting -> k' <> k ->
  od_get d k = Some entry ->
  is_Some (entry' !! "tokens") -> is_Some (entry' !! "references") ->
  exists d1 d2,
    get_cached_prepared true d (Some k) = Some ((Some k, Some entry), d1)
    /\ store_cache_entry true setting d1 (Some k') entry' = Some d2
    /\ od_get d2 k = Some entry.
Proof.
  intros Hcap Hne Hget Ht Hr.
  unfold get_cached_prepared, od_move_to_end. cbn [negb]. rewrite Hget.
  cbn [mbind option_bind]. eexists _, _. split; [reflexivity |].
  rewrite (CacheFacts.store_stores _ _ _ _ Ht Hr).
  split; [reflexivity |].
  rewrite filter_app, filter_cons_True, filter_nil by (simpl; congruence).
  rewrite <- List.app_assoc. cbn [app].
  match goal with
  | |- context [evict ?c (?rest ++ ?tail)] =>
      destruct (CacheFacts.evict_keeps_tail c rest tail)
        as (dropped & kept & Hd & ->); [unfold CACHE_CAPACITY; simpl; lia |];
      assert (Hf : Forall (fun kv => fst kv <> k) rest)
  end.
  { apply Forall_forall. intros kv Hkv.
    apply list_elem_of_filter in Hkv as [_ Hkv].
    by apply list_elem_of_filter in Hkv as [Hkv _]. }
  apply CacheFacts.od_get_fresh_head.
  rewrite Hd in Hf. by apply Forall_app in Hf as [_ Hf].
Qed.

Lemma recently_used_entry_survives_witness :
  exists d1 d2,
    get_cached_prepared true
      [(cache_key_of "a.json" "json" 1 default_config,
        ({["tokens" := ["grace"]; "references" := []]} : gmap string (list string)));
       (cache_key_of "b.txt" "text" 2 default_config,
        {["tokens" := ["mercy"]; "references" := []]})]
      (Some (cache_key_of "a.json" "json" 1 default_config))
    = Some ((Some (cache_key_of "a.json" "json" 1 default_config),
             Some {["tokens" := ["grace"]; "references" := []]}), d1)
    /\ store_cache_entry true 2 d1
         (Some (cache_key_of "c.txt" "text" 3 default_config))
         {["tokens" := ["peace"]; "references" := []]} = Some d2
    /\ od_get d2 (cache_key_of "a.json" "json" 1 default_config)
       = Some {["tokens" := ["grace"]; "references" := []]}.
Proof.
  apply recently_used_entry_survives.
  - lia.
  - intros H. apply (f_equal ck_mtime_ns) in H. discriminate H.
  - unfold od_get. cbn [find fst]. by rewrite bool_decide_eq_true_2.
  - by eexists.
  - by eexists.
Defined.

(** ** Analysis totals of the web application *)

Module SumFacts.

Lemma py_sum_foldl a xs : foldl Z.add a xs = a + py_sum xs.
Proof.
  unfold py_sum. revert a. induction xs as [| x xs IH]; intros a; cbn [foldl];
    [lia |].
  rewrite (IH (a + x)), (IH (0 + x)). lia.
Qed.

Lemma py_sum_cons x xs : py_sum (x :: xs) = x + py_sum xs.
Proof. unfold py_sum at 1. simpl. apply py_sum_foldl. Qed.

Lemma py_sum_zero {A} (l : list A) : py_sum ((fun _ => 0) <$> l) = 0.
Proof.
  induction l as [| x l IH]; [reflexivity |].
  rewrite fmap_cons, py_sum_cons, IH. reflexivity.
Qed.

Lemma py_sum_add {A} (f g : A -> Z) l :
  py_sum ((fun x => f x + g x) <$> l) = py_sum (f <$> l) + py_sum (g <$> l).
Proof.
  induction l as [| x l IH]; [reflexivity |].
  rewrite !fmap_cons, !py_sum_cons, IH. lia.
Qed.

Lemma py_sum_ext {A} (f g : A -> Z) l :
  Forall (fun x => f x = g x) l -> py_sum (f <$> l) = py_sum (g <$> l).
Proof.
  induction 1 as [| x l Hx _ IH]; [reflexivity |].
  by rewrite !fmap_cons, !py_sum_cons, Hx, IH.
Qed.

(** Among keys without repetition, one key at most is the given one. *)
Lemma py_sum_indicator (x : string) keys :
  NoDup keys -> x ∈ keys ->
  py_sum ((fun k => if decide (x = k) then 1 else 0) <$> keys) = 1.
Proof.
  induction 1 as [| k keys Hk _ IH]; intros Hx; [by apply elem_of_nil in Hx |].
  rewrite fmap_cons, py_sum_cons.
  destruct (decide (x = k)) as [-> | Hne].
  - rewrite (py_sum_ext _ (fun _ => 0)), py_sum_zero; [reflexivity |].
    apply Forall_forall. intros k' Hk'.
    destruct (decide (k = k')) as [-> | _]; [done | reflexivity].
  - apply elem_of_cons in Hx as [-> | Hx]; [done |]. by rewrite IH.
Qed.

(** Counting the members of a list key by key counts each member once. *)
Lemma sum_occurrences keys xs :
  NoDup keys -> (forall x, x ∈ xs -> x ∈ keys) ->
  py_sum ((fun k => occurrences k xs) <$> keys) = Z.of_nat (length xs).
Proof.
  intros Hnd. induction xs as [| x xs IH]; intros Hin.
  - rewrite (py_sum_ext _ (fun _ => 0)), py_sum_zero; [reflexivity |].
    apply Forall_forall. by intros k _.
  - rewrite (py_sum_ext _ (fun k => (if decide (x = k) then 1 else 0)
                                    + occurrences k xs)).
    + rewrite py_sum_add, py_sum_indicator, IH.
      * simpl length. lia.
      * intros y Hy. apply Hin. by right.
      * exact Hnd.
      * apply Hin. by left.
    + apply Forall_forall. intros k _. apply occurrences_cons.
Qed.

(** The values of a dictionary that tallies a list sum to the length of
    the list. *)
Lemma sum_tally {A} (m : gmap string A) (f : A -> Z) xs :
  (forall k a, m !! k = Some a -> f a = occurrences k xs) ->
  (forall x, x ∈ xs -> is_Some (m !! x)) ->
  py_sum (f <$> (snd <$> map_to_list m)) = Z.of_nat (length xs).
Proof.
  intros Hval Hdom.
  rewrite <- (sum_occurrences (fst <$> map_to_list m) xs).
  - rewrite <- !list_fmap_compose. apply py_sum_ext, Forall_forall.
    intros [k a] Hka. apply elem_of_map_to_list in Hka. simpl. by apply Hval.
  - apply NoDup_fst_map_to_list.
  - intros x Hx. destruct (Hdom x Hx) as [a Ha].
    apply list_elem_of_fmap. exists (x, a). split; [reflexivity |].
    by apply elem_of_map_to_list.
Qed.

End SumFacts.

(** X26: the [totalTokens] of the analysis is the number of tokens that
    the weights were computed from: the base counts of the records add up
    to it, the records of references, bigrams and manual keys adding
    nothing. *)
Theorem analysis_total_tokens tokens references boost_map rw manual weights stats refs :
  compute_word_weights tokens references boost_map rw manual = Some (weights, stats) ->
  totalTokens (build_analysis_payload stats weights refs)
  = Z.of_nat (length tokens).
Proof.
  intros Hrun. unfold build_analysis_payload. cbn [totalTokens].
  destruct (compute_word_weights_spec _ _ _ _ _ _ _ Hrun) as (_ & Hs & Hkeys).
  apply SumFacts.sum_tally.
  - intros k stat Hk.
    assert (Hin : k ∈ dom stats) by (apply elem_of_dom; by eexists).
    rewrite Hs in Hin. destruct (Hkeys k Hin) as (stat' & Hw & Hst & _).
    assert (stat' = stat) as -> by congruence.
    apply weigh_key_Some in Hw as (_ & -> & _). apply get0_Counter.
  - intros x Hx. apply elem_of_dom. rewrite Hs, dom_running_counts.
    apply elem_of_union. left. apply elem_of_union. left. apply elem_of_union.
    left. by apply elem_of_list_to_set.
Qed.

Lemma analysis_total_tokens_witness :
  match compute_word_weights ["mercy"; "mercy"] ["John 3:16"] BOOST_MAP 4 None with
  | Some (weights, stats) =>
      totalTokens (build_analysis_payload stats weights ["John 3:16"]) = 2
  | None => False
  end.
Proof.
  destruct (compute_word_weights ["mercy"; "mercy"] ["John 3:16"] BOOST_MAP 4 None)
    as [[weights stats] |] eqn:E.
  - exact (analysis_total_tokens _ _ _ _ _ _ _ ["John 3:16"] E).
  - assert (H : returned (compute_word_weights ["mercy"; "mercy"] ["John 3:16"]
                            BOOST_MAP 4 None) = true) by (vm_compute; reflexivity).
    rewrite E in H. discriminate H.
Defined.

(** X27: the [referenceMatches] of the analysis is the number of the
    references it is given, repetitions counted. *)
Theorem analysis_reference_matches stats final_counts references :
  referenceMatches (build_analysis_payload stats final_counts references)
  = Z.of_nat (length references).
Proof.
  unfold build_analysis_payload. cbn [referenceMatches].
  rewrite <- (list_fmap_id (snd <$> map_to_list (Counter references))).
  apply SumFacts.sum_tally.
  - intros k n Hk. rewrite <- get0_Counter. unfold get0. by rewrite Hk.
  - intros x Hx. apply elem_of_dom. rewrite dom_Counter.
    by apply elem_of_list_to_set.
Qed.

(** X28: the [uniqueTokens] of the analysis counts every key of the
    weights: the distinct tokens, and also the references, the boosted
    bigrams and the keys of the manual adjustments. *)
Theorem analysis_unique_tokens tokens references boost_map rw manual weights stats refs :
  compute_word_weights tokens references boost_map rw manual = Some (weights, stats) ->
  uniqueTokens (build_analysis_payload stats weights refs)
  = Z.of_nat (size (list_to_set tokens ∪ list_to_set references
                    ∪ list_to_set (filter (fun p => p ∈ dom boost_map)
                                          (bigram_phrases tokens))
                    ∪ dom (default ∅ manual) : gset string)).
Proof.
  intros Hrun. unfold build_analysis_payload. cbn [uniqueTokens].
  destruct (compute_word_weights_spec _ _ _ _ _ _ _ Hrun) as (_ & Hs & _).
  by rewrite <- size_dom, Hs, dom_running_counts.
Qed.

Lemma analysis_unique_tokens_witness :
  match compute_word_weights ["mercy"; "mercy"] ["John 3:16"] BOOST_MAP 4 None with
  | Some (weights, stats) =>
      uniqueTokens (build_analysis_payload stats weights ["John 3:16"]) = 2
  | None => False
  end.
Proof.
  destruct (compute_word_weights ["mercy"; "mercy"] ["John 3:16"] BOOST_MAP 4 None)
    as [[weights stats] |] eqn:E.
  - rewrite (analysis_unique_tokens _ _ _ _ _ _ _ ["John 3:16"] E).
    vm_compute. reflexivity.
  - assert (H : returned (compute_word_weights ["mercy"; "mercy"] ["John 3:16"]
                            BOOST_MAP 4 None) = true) by (vm_compute; reflexivity).
    rewrite E in H. discriminate H.
Defined.

(** ** Palette chosen on the command line *)

Module PaletteFacts.

Lemma presets_usable : Forall (fun p => usable_palette (snd p)) THEME_PRESETS.
Proof.
  unfold THEME_PRESETS.
  repeat (constructor; [split; [discriminate | repeat (constructor; [discriminate |]);
                                constructor] |]).
  constructor.
Qed.

Lemma theme_preset_usable name preset :
  theme_preset name = Some preset -> usable_palette preset.
Proof.
  unfold theme_preset. intros H.
  destruct (find _ THEME_PRESETS) as [p |] eqn:E; [| discriminate H].
  injection H as <-. apply find_some in E as [Hin _].
  pose proof presets_usable as Hall. rewrite List.Forall_forall in Hall.
  by apply Hall.
Qed.

Lemma default_palette_usable : usable_palette DEFAULT_PALETTE.
Proof. by apply (theme_preset_usable "muted"). Qed.

End PaletteFacts.

(** X29: [parse_palette] never returns an empty palette, and no colour of
    the palette is the empty string, whatever the option holds: blank
    pieces between commas are dropped, and the default palette stands in
    when nothing is left. *)
Theorem parse_palette_usable raw :
  parse_palette raw <> []
  /\ Forall (fun colour => colour <> "") (parse_palette raw).
Proof.
  change (usable_palette (parse_palette raw)). unfold parse_palette.
  destruct raw as [raw |]; [| apply PaletteFacts.default_palette_usable].
  destruct (Str.is_empty raw); [apply PaletteFacts.default_palette_usable |].
  destruct (theme_preset _) as [preset |] eqn:E;
    [by apply (PaletteFacts.theme_preset_usable _ _ E) |].
  destruct (Str.strip <$> _) as [| c colours] eqn:Ec;
    [apply PaletteFacts.default_palette_usable |].
  split; [discriminate |]. rewrite <- Ec.
  apply Forall_fmap, Forall_forall. intros piece Hpiece.
  by apply list_elem_of_filter in Hpiece as [Hne _].
Qed.
